(** * Membership functions of fuzzy-vis, embedded over IEEE-754 binary64

    The TypeScript module [src/lib/membership-function.ts] is a catalogue of
    pure functions on JavaScript numbers.  A JavaScript number is an IEEE-754
    binary64 value, so the embedding computes over [spec_float] with
    [prec = 53] and [emax = 1024]: additions, subtractions, products and
    quotients round to nearest-even, overflow to an infinity, and produce NaN
    exactly where the language does.  A [throw new Error(msg)] is the [Throw]
    constructor of [completion]. *)

From Stdlib Require Import ZArith Bool List String Ascii Lia.
From Stdlib Require Import Floats.SpecFloat.
Import ListNotations.

(** ** JavaScript numbers *)

Module Number.

Definition prec : Z := 53.
Definition emax : Z := 1024.

Definition number : Type := spec_float.

Definition NaN : number := S754_nan.
Definition Infinity : number := S754_infinity false.

  (** The number [m * 2^e], rounded to binary64. *)
Definition of_Z2 (m e : Z) : number := binary_normalize prec emax m e false.
Definition of_Z (m : Z) : number := of_Z2 m 0.

Definition zero : number := S754_zero false.
Definition one : number := Eval vm_compute in of_Z 1.
Definition two : number := Eval vm_compute in of_Z 2.
Definition half : number := Eval vm_compute in of_Z2 1 (-1).
  (** [Number.EPSILON] is 2^-52. *)
Definition EPSILON : number := Eval vm_compute in of_Z2 1 (-52).

Definition add : number -> number -> number := SFadd prec emax.
Definition sub : number -> number -> number := SFsub prec emax.
Definition mul : number -> number -> number := SFmul prec emax.
Definition div : number -> number -> number := SFdiv prec emax.
Definition neg : number -> number := SFopp.
Definition abs : number -> number := SFabs.

  (** Relational operators: [x < y], [x <= y], [x > y], [x >= y], [x === y].
      Each is false as soon as one side is NaN; [+0] and [-0] are equal. *)
Definition ltb : number -> number -> bool := SFltb.
Definition leb : number -> number -> bool := SFleb.
Definition gtb (x y : number) : bool := ltb y x.
Definition geb (x y : number) : bool := leb y x.
Definition eqb : number -> number -> bool := SFeqb.

  (** [Number.isFinite]. *)
Definition isFinite (v : number) : bool :=
    match v with
    | S754_zero _ | S754_finite _ _ _ => true
    | S754_infinity _ | S754_nan => false
    end.

Definition isNaN (v : number) : bool :=
    match v with S754_nan => true | _ => false end.

  (** ToBoolean on a number: [+0], [-0] and NaN are falsy. *)
Definition truthy (v : number) : bool :=
    match v with
    | S754_zero _ | S754_nan => false
    | _ => true
    end.

  (** [l || r] on numbers. *)
Definition or_else (l r : number) : number := if truthy l then l else r.

  (** A value every binary64 datum satisfies: bounded canonical mantissa. *)
Definition valid (v : number) : bool := valid_binary prec emax v.

  (** [0 <= v <= 1] as the language evaluates it. *)
Definition in_unit (v : number) : bool := leb zero v && leb v one.

End Number.

Import Number.

Declare Scope num_scope.
Delimit Scope num_scope with num.
Bind Scope num_scope with number.
Infix "+" := add : num_scope.
Infix "-" := sub : num_scope.
Infix "*" := mul : num_scope.
Infix "/" := div : num_scope.
Notation "- x" := (neg x) : num_scope.
Infix "<?" := ltb (at level 70) : num_scope.
Infix "<=?" := leb (at level 70) : num_scope.
Infix ">?" := gtb (at level 70) : num_scope.
Infix ">=?" := geb (at level 70) : num_scope.
Infix "===" := eqb (at level 70) : num_scope.
Infix "|||" := or_else (at level 50, left associativity) : num_scope.

(** ** Completions: a returned number or a thrown [Error] *)

Inductive completion : Type :=
| Return (v : number)
| Throw (msg : string).

Definition bind (c : completion) (k : number -> completion) : completion :=
  match c with
  | Return v => k v
  | Throw msg => Throw msg
  end.

Definition throws (c : completion) : bool :=
  match c with Throw _ => true | Return _ => false end.

(** ** Internal helpers of the module *)

Open Scope string_scope.

Definition clamp01 (v : number) : number :=
  if (v <? zero)%num then zero else if (v >? one)%num then one else v.

(** The parameters are typed [number] at every call site, so the
    [typeof v === "number"] conjunct is true and [Number.isFinite] decides. *)
Definition isFiniteNumber (v : number) : bool := isFinite v.

(** [assertFiniteNumbers name values]: [None] when the loop runs to its end,
    [Some msg] when it throws at the first non-finite entry. *)
Fixpoint assertFiniteNumbers (name : string) (values : list (string * number))
  : option string :=
  match values with
  | [] => None
  | (label, v) :: rest =>
      if negb (isFiniteNumber v)
      then Some (name ++ ": parameter '" ++ label ++ "' must be a finite number.")
      else assertFiniteNumbers name rest
  end.

(** Sequencing of the validation prologue with the rest of a function body. *)
Definition guarded (check : option string) (body : completion) : completion :=
  match check with
  | Some msg => Throw msg
  | None => body
  end.

(** ** The catalogue *)

Section Catalogue.

  (** [Math.exp] and [Math.pow] are implementation-approximated in the
      language definition; the catalogue is embedded over any pair of them. *)
Variable Math_exp : number -> number.
Variable Math_pow : number -> number -> number.

Open Scope num_scope.

Definition triangular (x a b c : number) : completion :=
    guarded (assertFiniteNumbers "triangular"
               [("x", x); ("a", a); ("b", b); ("c", c)])
    (if negb ((a <=? b) && (b <=? c))
       then Throw "triangular: require a <= b <= c"
     else if (x <=? a) || (x >=? c) then Return zero
     else if x === b then Return one
     else if (x >? a) && (x <? b)
       then Return (clamp01 ((x - a) / ((b - a) ||| EPSILON)))
     else if (x >? b) && (x <? c)
       then Return (clamp01 ((c - x) / ((c - b) ||| EPSILON)))
     else Return zero).

Definition trapezoidal (x a b c d : number) : completion :=
    guarded (assertFiniteNumbers "trapezoidal"
               [("x", x); ("a", a); ("b", b); ("c", c); ("d", d)])
    (if negb ((a <=? b) && (b <=? c) && (c <=? d))
       then Throw "trapezoidal: require a <= b <= c <= d"
     else if (x <=? a) || (x >=? d) then Return zero
     else if (x >=? b) && (x <=? c) then Return one
     else if (x >? a) && (x <? b)
       then Return (clamp01 ((x - a) / ((b - a) ||| EPSILON)))
     else if (x >? c) && (x <? d)
       then Return (clamp01 ((d - x) / ((d - c) ||| EPSILON)))
     else Return zero).

Definition gaussian (x mu sigma : number) : completion :=
    guarded (assertFiniteNumbers "gaussian"
               [("x", x); ("mu", mu); ("sigma", sigma)])
    (if negb (sigma >? zero) then Throw "gaussian: require sigma > 0"
     else
       let z := (x - mu) / sigma in
       Return (clamp01 (Math_exp ((- half) * z * z)))).

Definition generalizedBell (x a b c : number) : completion :=
    guarded (assertFiniteNumbers "generalizedBell"
               [("x", x); ("a", a); ("b", b); ("c", c)])
    (if a === zero then Throw "generalizedBell: require a != 0"
     else if negb (b >? zero) then Throw "generalizedBell: require b > 0"
     else
       let t := abs ((x - c) / a) in
       Return (clamp01 (one / (one + Math_pow t (two * b))))).

Definition sigmoid (x a c : number) : completion :=
    guarded (assertFiniteNumbers "sigmoid" [("x", x); ("a", a); ("c", c)])
    (let v := one / (one + Math_exp ((- a) * (x - c))) in
     Return (clamp01 v)).

Definition sCurve (x a b : number) : completion :=
    guarded (assertFiniteNumbers "sCurve" [("x", x); ("a", a); ("b", b)])
    (if negb (a <? b) then Throw "sCurve: require a < b"
     else if x <=? a then Return zero
     else if x >=? b then Return one
     else
       let t := (x - a) / (b - a) in
       if t <=? half then Return (two * t * t)
       else
         let u := one - t in
         Return (one - two * u * u)).

Definition zCurve (x a b : number) : completion :=
    guarded (assertFiniteNumbers "zCurve" [("x", x); ("a", a); ("b", b)])
    (if negb (a <? b) then Throw "zCurve: require a < b"
     else if x <=? a then Return one
     else if x >=? b then Return zero
     else
       let t := (x - a) / (b - a) in
       if t <=? half then Return (one - two * t * t)
       else
         let u := one - t in
         Return (two * u * u)).

Definition piCurve (x a b c d : number) : completion :=
    guarded (assertFiniteNumbers "piCurve"
               [("x", x); ("a", a); ("b", b); ("c", c); ("d", d)])
    (if negb ((a <=? b) && (b <=? c) && (c <=? d))
       then Throw "piCurve: require a <= b <= c <= d"
     else if (x <=? a) || (x >=? d) then Return zero
     else if (x >=? b) && (x <=? c) then Return one
     else if (x >? a) && (x <? b) then sCurve x a b
     else if (x >? c) && (x <? d) then zCurve x c d
     else Return zero).

Definition leftShoulder (x a b : number) : completion := zCurve x a b.

Definition rightShoulder (x a b : number) : completion := sCurve x a b.

Definition singleton (x c : number) : completion :=
    guarded (assertFiniteNumbers "singleton" [("x", x); ("c", c)])
    (Return (if x === c then one else zero)).

Definition complement (mu : number) : completion :=
    if negb (isFiniteNumber mu)
    then Throw "complement: mu must be a finite number"
    else Return (clamp01 (one - mu)).

End Catalogue.

(** ** Invocations

    The union type [MembershipFunction] lists the eleven catalogue functions;
    an [Invocation] is one of them applied to its arguments, as the chart
    does with [fn(x, ...parameters)]. *)

Inductive Invocation : Type :=
| Triangular (x a b c : number)
| Trapezoidal (x a b c d : number)
| Gaussian (x mu sigma : number)
| GeneralizedBell (x a b c : number)
| Sigmoid (x a c : number)
| SCurve (x a b : number)
| ZCurve (x a b : number)
| PiCurve (x a b c d : number)
| LeftShoulder (x a b : number)
| RightShoulder (x a b : number)
| Singleton (x c : number).

(** The name under which the caller invoked the function. *)
Definition invoked_name (i : Invocation) : string :=
  match i with
  | Triangular _ _ _ _ => "triangular"
  | Trapezoidal _ _ _ _ _ => "trapezoidal"
  | Gaussian _ _ _ => "gaussian"
  | GeneralizedBell _ _ _ _ => "generalizedBell"
  | Sigmoid _ _ _ => "sigmoid"
  | SCurve _ _ _ => "sCurve"
  | ZCurve _ _ _ => "zCurve"
  | PiCurve _ _ _ _ _ => "piCurve"
  | LeftShoulder _ _ _ => "leftShoulder"
  | RightShoulder _ _ _ => "rightShoulder"
  | Singleton _ _ => "singleton"
  end.

(** The arguments of an invocation, paired with their parameter labels. *)
Definition arguments (i : Invocation) : list (string * number) :=
  match i with
  | Triangular x a b c => [("x", x); ("a", a); ("b", b); ("c", c)]
  | Trapezoidal x a b c d => [("x", x); ("a", a); ("b", b); ("c", c); ("d", d)]
  | Gaussian x mu sigma => [("x", x); ("mu", mu); ("sigma", sigma)]
  | GeneralizedBell x a b c => [("x", x); ("a", a); ("b", b); ("c", c)]
  | Sigmoid x a c => [("x", x); ("a", a); ("c", c)]
  | SCurve x a b => [("x", x); ("a", a); ("b", b)]
  | ZCurve x a b => [("x", x); ("a", a); ("b", b)]
  | PiCurve x a b c d => [("x", x); ("a", a); ("b", b); ("c", c); ("d", d)]
  | LeftShoulder x a b => [("x", x); ("a", a); ("b", b)]
  | RightShoulder x a b => [("x", x); ("a", a); ("b", b)]
  | Singleton x c => [("x", x); ("c", c)]
  end.

Definition all_finite (i : Invocation) : bool :=
  forallb (fun lv => isFinite (snd lv)) (arguments i).

(** The documented "Constraints:" line of each function. *)
Definition constraint (i : Invocation) : bool :=
  match i with
  | Triangular _ a b c => (a <=? b)%num && (b <=? c)%num
  | Trapezoidal _ a b c d => (a <=? b)%num && (b <=? c)%num && (c <=? d)%num
  | Gaussian _ _ sigma => (sigma >? zero)%num
  | GeneralizedBell _ a b _ => negb (a === zero)%num && (b >? zero)%num
  | Sigmoid _ _ _ => true
  | SCurve _ a b => (a <? b)%num
  | ZCurve _ a b => (a <? b)%num
  | PiCurve _ a b c d => (a <=? b)%num && (b <=? c)%num && (c <=? d)%num
  | LeftShoulder _ a b => (a <? b)%num
  | RightShoulder _ a b => (a <? b)%num
  | Singleton _ _ => true
  end.

(** The two aliases validate nothing themselves. *)
Definition is_alias (i : Invocation) : bool :=
  match i with
  | LeftShoulder _ _ _ | RightShoulder _ _ _ => true
  | _ => false
  end.

Section Run.

Variable Math_exp : number -> number.
Variable Math_pow : number -> number -> number.

Definition run (i : Invocation) : completion :=
    match i with
    | Triangular x a b c => triangular x a b c
    | Trapezoidal x a b c d => trapezoidal x a b c d
    | Gaussian x mu sigma => gaussian Math_exp x mu sigma
    | GeneralizedBell x a b c => generalizedBell Math_pow x a b c
    | Sigmoid x a c => sigmoid Math_exp x a c
    | SCurve x a b => sCurve x a b
    | ZCurve x a b => zCurve x a b
    | PiCurve x a b c d => piCurve x a b c d
    | LeftShoulder x a b => leftShoulder x a b
    | RightShoulder x a b => rightShoulder x a b
    | Singleton x c => singleton x c
    end.

End Run.

(** The function whose validation prologue reports an error of the
    invocation: the two aliases delegate at once. *)
Definition reporting_name (i : Invocation) : string :=
  match i with
  | LeftShoulder _ _ _ => "zCurve"
  | RightShoulder _ _ _ => "sCurve"
  | _ => invoked_name i
  end.

(** ** The visualisation layer

    [src/components/ui]: the chart samples a set with [computeMembership]
    and draws 0 where the call throws; the card keeps the list of fuzzy
    sets, adds presets to it, patches and removes sets by id, rewrites one
    parameter at a time and keeps the slider inside the domain. *)

(** [Math.max] and [Math.min] of two numbers: NaN as soon as one operand is
    NaN, and [+0] counts as larger than [-0]. *)
Definition is_neg_zero (v : number) : bool :=
  match v with S754_zero true => true | _ => false end.

Definition is_pos_zero (v : number) : bool :=
  match v with S754_zero false => true | _ => false end.

Definition Math_max (u v : number) : number :=
  if isNaN u || isNaN v then NaN
  else if is_neg_zero u && is_pos_zero v then v
  else if (u <? v)%num then v else u.

Definition Math_min (u v : number) : number :=
  if isNaN u || isNaN v then NaN
  else if is_pos_zero u && is_neg_zero v then v
  else if (v <? u)%num then v else u.

(** The effect that keeps the slider value inside the domain:
    [Math.min(state.max, Math.max(state.min, v))]. *)
Definition clampToDomain (min max v : number) : number :=
  Math_min max (Math_max min v).

Module Card.

(** The values of the union type [MembershipFunction]. *)
Inductive MembershipFunction : Type :=
| fn_triangular | fn_trapezoidal | fn_gaussian | fn_generalizedBell
| fn_sigmoid | fn_sCurve | fn_zCurve | fn_piCurve
| fn_leftShoulder | fn_rightShoulder | fn_singleton.

Record FuzzySet : Type := {
  id : string;
  label : string;
  color : string;
  functionType : MembershipFunction;
  parameters : list number
}.

(** [Partial<FuzzySet>]. *)
Record Patch : Type := {
  patch_id : option string;
  patch_label : option string;
  patch_color : option string;
  patch_functionType : option MembershipFunction;
  patch_parameters : option (list number)
}.

Definition or_keep {A : Type} (new : option A) (old : A) : A :=
  match new with Some v => v | None => old end.

(** [{ ...s, ...patch }]. *)
Definition spread (s : FuzzySet) (patch : Patch) : FuzzySet :=
  {| id := or_keep (patch_id patch) (id s);
     label := or_keep (patch_label patch) (label s);
     color := or_keep (patch_color patch) (color s);
     functionType := or_keep (patch_functionType patch) (functionType s);
     parameters := or_keep (patch_parameters patch) (parameters s) |}.

Definition updateSet (sets : list FuzzySet) (id0 : string) (patch : Patch)
  : list FuzzySet :=
  map (fun s => if String.eqb (id s) id0 then spread s patch else s) sets.

Definition removeSet (sets : list FuzzySet) (id0 : string) : list FuzzySet :=
  filter (fun s => negb (String.eqb (id s) id0)) sets.

Record Preset : Type := {
  key : string;
  preset_label : string;
  fn : MembershipFunction;
  paramLabels : list string;
  defaultParams : number -> number -> list number
}.

(** [addSet]: the suffix of the id and the colour are drawn at random by
    the source and are inputs here. *)
Definition addSet (sets : list FuzzySet) (selected : Preset)
    (suffix colour : string) (min max : number) : list FuzzySet :=
  sets ++ [ {| id := key selected ++ "-" ++ suffix;
               label := preset_label selected;
               color := colour;
               functionType := fn selected;
               parameters := defaultParams selected min max |} ].

(** [next[idx] = v] on a copy of the list; the handler exists only for the
    indices of the list, where the assignment replaces one entry. *)
Fixpoint assign (l : list number) (idx : nat) (v : number) : list number :=
  match l, idx with
  | [], _ => []
  | _ :: rest, O => v :: rest
  | h :: rest, S k => h :: assign rest k v
  end.

(** The change handler of a parameter field: what [parseFloat] returned is
    stored when it is finite, 0 otherwise. *)
Definition editParameter (sets : list FuzzySet) (s : FuzzySet) (idx : nat)
    (num : number) : list FuzzySet :=
  let next := assign (parameters s) idx (if isFinite num then num else zero) in
  updateSet sets (id s)
    {| patch_id := None; patch_label := None; patch_color := None;
       patch_functionType := None; patch_parameters := Some next |}.

(** Number literals of the presets. *)
Definition six : number := Eval vm_compute in of_Z 6.
Definition quarter : number := Eval vm_compute in of_Z2 1 (-2).
Definition three_quarters : number := Eval vm_compute in of_Z2 3 (-2).
Definition three_tenths : number := Eval vm_compute in div (of_Z 3) (of_Z 10).
Definition seven_tenths : number := Eval vm_compute in div (of_Z 7) (of_Z 10).
Definition one_millionth : number :=
  Eval vm_compute in div (of_Z 1) (of_Z 1000000).

Local Open Scope num_scope.

Definition quartiles (min max : number) : list number :=
  [min + (max - min) * quarter; min + (max - min) * three_quarters].

Definition FUNCTION_PRESETS : list Preset :=
  [ {| key := "triangular"; preset_label := "Triangular(a,b,c)";
       fn := fn_triangular; paramLabels := ["a"; "b"; "c"];
       defaultParams := fun min max => [min; (min + max) / two; max] |};
    {| key := "trapezoidal"; preset_label := "Trapezoid(a,b,c,d)";
       fn := fn_trapezoidal; paramLabels := ["a"; "b"; "c"; "d"];
       defaultParams := fun min max =>
         [min; min + (max - min) * quarter;
          min + (max - min) * three_quarters; max] |};
    {| key := "gaussian"; preset_label := "Gaussian(μ,σ)";
       fn := fn_gaussian; paramLabels := ["mu"; "sigma"];
       defaultParams := fun min max => [(min + max) / two; (max - min) / six] |};
    {| key := "bell"; preset_label := "Generalized Bell(a,b,c)";
       fn := fn_generalizedBell; paramLabels := ["a"; "b"; "c"];
       defaultParams := fun min max =>
         [Math_max one_millionth ((max - min) / six); two; (min + max) / two] |};
    {| key := "sigmoid"; preset_label := "Sigmoid(a,c)";
       fn := fn_sigmoid; paramLabels := ["a"; "c"];
       defaultParams := fun min max => [one; (min + max) / two] |};
    {| key := "sCurve"; preset_label := "S-Curve(a,b)";
       fn := fn_sCurve; paramLabels := ["a"; "b"];
       defaultParams := quartiles |};
    {| key := "zCurve"; preset_label := "Z-Curve(a,b)";
       fn := fn_zCurve; paramLabels := ["a"; "b"];
       defaultParams := quartiles |};
    {| key := "leftShoulder"; preset_label := "Left Shoulder(a,b)";
       fn := fn_leftShoulder; paramLabels := ["a"; "b"];
       defaultParams := quartiles |};
    {| key := "rightShoulder"; preset_label := "Right Shoulder(a,b)";
       fn := fn_rightShoulder; paramLabels := ["a"; "b"];
       defaultParams := quartiles |};
    {| key := "piCurve"; preset_label := "Pi Curve(a,b,c,d)";
       fn := fn_piCurve; paramLabels := ["a"; "b"; "c"; "d"];
       defaultParams := fun min max =>
         [min; min + (max - min) * three_tenths;
          min + (max - min) * seven_tenths; max] |} ].

(** The labels of the formal parameters of a function, [x] first. *)
Definition formals (f : MembershipFunction) : list string :=
  match f with
  | fn_triangular => ["x"; "a"; "b"; "c"]
  | fn_trapezoidal => ["x"; "a"; "b"; "c"; "d"]
  | fn_gaussian => ["x"; "mu"; "sigma"]
  | fn_generalizedBell => ["x"; "a"; "b"; "c"]
  | fn_sigmoid => ["x"; "a"; "c"]
  | fn_sCurve => ["x"; "a"; "b"]
  | fn_zCurve => ["x"; "a"; "b"]
  | fn_piCurve => ["x"; "a"; "b"; "c"; "d"]
  | fn_leftShoulder => ["x"; "a"; "b"]
  | fn_rightShoulder => ["x"; "a"; "b"]
  | fn_singleton => ["x"; "c"]
  end.

(** The name the validation prologue that runs for the function reports. *)
Definition validator (f : MembershipFunction) : string :=
  match f with
  | fn_triangular => "triangular"
  | fn_trapezoidal => "trapezoidal"
  | fn_gaussian => "gaussian"
  | fn_generalizedBell => "generalizedBell"
  | fn_sigmoid => "sigmoid"
  | fn_sCurve | fn_rightShoulder => "sCurve"
  | fn_zCurve | fn_leftShoulder => "zCurve"
  | fn_piCurve => "piCurve"
  | fn_singleton => "singleton"
  end.

(** Binding of the actual arguments to the formal parameters: surplus
    arguments are dropped, [None] when a formal parameter stays
    [undefined]. *)
Definition bind_formals (f : MembershipFunction) (args : list number)
  : option Invocation :=
  match f, args with
  | fn_triangular, x :: a :: b :: c :: _ => Some (Triangular x a b c)
  | fn_trapezoidal, x :: a :: b :: c :: d :: _ => Some (Trapezoidal x a b c d)
  | fn_gaussian, x :: mu :: sigma :: _ => Some (Gaussian x mu sigma)
  | fn_generalizedBell, x :: a :: b :: c :: _ => Some (GeneralizedBell x a b c)
  | fn_sigmoid, x :: a :: c :: _ => Some (Sigmoid x a c)
  | fn_sCurve, x :: a :: b :: _ => Some (SCurve x a b)
  | fn_zCurve, x :: a :: b :: _ => Some (ZCurve x a b)
  | fn_piCurve, x :: a :: b :: c :: d :: _ => Some (PiCurve x a b c d)
  | fn_leftShoulder, x :: a :: b :: _ => Some (LeftShoulder x a b)
  | fn_rightShoulder, x :: a :: b :: _ => Some (RightShoulder x a b)
  | fn_singleton, x :: c :: _ => Some (Singleton x c)
  | _, _ => None
  end.

(** Every parameter of the set is a finite number. *)
Definition finite_parameters (s : FuzzySet) : Prop :=
  Forall (fun v => isFinite v = true) (parameters s).

(** A set as addSet makes them, and the default of a table lookup. *)
Definition sample_set : FuzzySet :=
  {| id := "bell-k3x9aa"; label := "Generalized Bell(a,b,c)";
     color := "hsl(12 70% 50%)"; functionType := fn_generalizedBell;
     parameters := [one; two; zero] |}.


Definition no_preset : Preset :=
  {| key := ""; preset_label := ""; fn := fn_singleton; paramLabels := [];
     defaultParams := fun _ _ => [] |}.

(** What a formal parameter of type [unknown] holds in a call made with a
    list of numbers: a number, or [undefined] when no argument was passed
    for it. *)
Inductive unknown : Type :=
| a_number (v : number)
| undefined.

(** [isFiniteNumber] as the source types it:
    [typeof v === "number" && Number.isFinite(v)]. *)
Definition isFiniteUnknown (v : unknown) : bool :=
  match v with
  | a_number n => isFinite n
  | undefined => false
  end.

(** [assertFiniteNumbers] on the entries it is typed for,
    [Array<[string, unknown]>]. *)
Fixpoint assertFiniteUnknowns (name : string) (values : list (string * unknown))
  : option string :=
  match values with
  | [] => None
  | (label, v) :: rest =>
      if negb (isFiniteUnknown v)
      then Some (name ++ ": parameter '" ++ label ++ "' must be a finite number.")
      else assertFiniteUnknowns name rest
  end.

(** After the prologue a body uses its parameters in arithmetic and in
    comparisons only, where [undefined] counts as NaN. *)
Definition ToNumber (v : unknown) : number :=
  match v with
  | a_number n => n
  | undefined => NaN
  end.

(** The positional binding of a call: the k-th formal parameter. *)
Definition formal (args : list number) (k : nat) : unknown :=
  match nth_error args k with
  | Some v => a_number v
  | None => undefined
  end.




Section Chart.

Variable Math_exp : number -> number.
Variable Math_pow : number -> number -> number.

(** The catalogue functions as a call without static types reaches them:
    the prologue runs on what the formal parameters hold, then the body. *)
Definition triangular_any (x a b c : unknown) : completion :=
  guarded (assertFiniteUnknowns "triangular"
             [("x", x); ("a", a); ("b", b); ("c", c)])
          (triangular (ToNumber x) (ToNumber a) (ToNumber b) (ToNumber c)).

Definition trapezoidal_any (x a b c d : unknown) : completion :=
  guarded (assertFiniteUnknowns "trapezoidal"
             [("x", x); ("a", a); ("b", b); ("c", c); ("d", d)])
          (trapezoidal (ToNumber x) (ToNumber a) (ToNumber b) (ToNumber c)
             (ToNumber d)).

Definition gaussian_any (x mu sigma : unknown) : completion :=
  guarded (assertFiniteUnknowns "gaussian"
             [("x", x); ("mu", mu); ("sigma", sigma)])
          (gaussian Math_exp (ToNumber x) (ToNumber mu) (ToNumber sigma)).

Definition generalizedBell_any (x a b c : unknown) : completion :=
  guarded (assertFiniteUnknowns "generalizedBell"
             [("x", x); ("a", a); ("b", b); ("c", c)])
          (generalizedBell Math_pow (ToNumber x) (ToNumber a) (ToNumber b)
             (ToNumber c)).

Definition sigmoid_any (x a c : unknown) : completion :=
  guarded (assertFiniteUnknowns "sigmoid" [("x", x); ("a", a); ("c", c)])
          (sigmoid Math_exp (ToNumber x) (ToNumber a) (ToNumber c)).

Definition sCurve_any (x a b : unknown) : completion :=
  guarded (assertFiniteUnknowns "sCurve" [("x", x); ("a", a); ("b", b)])
          (sCurve (ToNumber x) (ToNumber a) (ToNumber b)).

Definition zCurve_any (x a b : unknown) : completion :=
  guarded (assertFiniteUnknowns "zCurve" [("x", x); ("a", a); ("b", b)])
          (zCurve (ToNumber x) (ToNumber a) (ToNumber b)).

Definition piCurve_any (x a b c d : unknown) : completion :=
  guarded (assertFiniteUnknowns "piCurve"
             [("x", x); ("a", a); ("b", b); ("c", c); ("d", d)])
          (piCurve (ToNumber x) (ToNumber a) (ToNumber b) (ToNumber c)
             (ToNumber d)).

Definition leftShoulder_any (x a b : unknown) : completion := zCurve_any x a b.

Definition rightShoulder_any (x a b : unknown) : completion := sCurve_any x a b.

Definition singleton_any (x c : unknown) : completion :=
  guarded (assertFiniteUnknowns "singleton" [("x", x); ("c", c)])
          (singleton (ToNumber x) (ToNumber c)).

(** A call [f(...args)] of a catalogue function on a list of numbers. *)
Definition call (f : MembershipFunction) (args : list number) : completion :=
  let p := formal args in
  match f with
  | fn_triangular => triangular_any (p 0%nat) (p 1%nat) (p 2%nat) (p 3%nat)
  | fn_trapezoidal =>
      trapezoidal_any (p 0%nat) (p 1%nat) (p 2%nat) (p 3%nat) (p 4%nat)
  | fn_gaussian => gaussian_any (p 0%nat) (p 1%nat) (p 2%nat)
  | fn_generalizedBell =>
      generalizedBell_any (p 0%nat) (p 1%nat) (p 2%nat) (p 3%nat)
  | fn_sigmoid => sigmoid_any (p 0%nat) (p 1%nat) (p 2%nat)
  | fn_sCurve => sCurve_any (p 0%nat) (p 1%nat) (p 2%nat)
  | fn_zCurve => zCurve_any (p 0%nat) (p 1%nat) (p 2%nat)
  | fn_piCurve => piCurve_any (p 0%nat) (p 1%nat) (p 2%nat) (p 3%nat) (p 4%nat)
  | fn_leftShoulder => leftShoulder_any (p 0%nat) (p 1%nat) (p 2%nat)
  | fn_rightShoulder => rightShoulder_any (p 0%nat) (p 1%nat) (p 2%nat)
  | fn_singleton => singleton_any (p 0%nat) (p 1%nat)
  end.




End Chart.

End Card.

(** ** Auxiliary definitions on binary64 *)

Abbreviation fexp64 := (fexp prec emax).

(** The last step of a rounding: a mantissa and an exponent packed as a
    number, an infinity past the largest exponent. *)
Definition assemble (s : bool) (q e : Z) : number :=
  match q with
  | Z0 => S754_zero s
  | Zpos p => if (e <=? emax - prec)%Z then S754_finite s p e else S754_infinity s
  | Zneg _ => S754_nan
  end.

(** An integer multiple of 2^-53. *)
Definition on_grid53 (v : number) : bool :=
  match v with
  | S754_zero _ => true
  | S754_finite _ m e =>
      if (-53 <=? e)%Z then true else (Zpos m mod 2 ^ (-53 - e) =? 0)%Z
  | _ => false
  end.

(** * Order on numbers

    [SFcompare] orders all non-NaN values; the relational operators inherit
    a total preorder from it. *)

Module NumOrder.

Local Open Scope num_scope.

Ltac unfold_rel :=
    unfold gtb, geb, ltb, leb, eqb, SFltb, SFleb, SFeqb in *.

Ltac compare_cases :=
    repeat match goal with
    | |- context [Pos.compare_cont Eq ?p ?q] =>
        change (Pos.compare_cont Eq p q) with (Pos.compare p q)
    end;
    repeat match goal with
    | |- context [Z.compare ?p ?q] => destruct (Z.compare_spec p q)
    | |- context [Pos.compare ?p ?q] => destruct (Pos.compare_spec p q)
    end.

Ltac order_by_cases :=
    unfold_rel;
    repeat match goal with x : number |- _ => destruct x end;
    repeat match goal with s : bool |- _ => destruct s end;
    cbn [SFcompare CompOpp negb andb orb];
    compare_cases;
    cbn [CompOpp negb andb orb];
    try reflexivity; try discriminate; try lia; intros;
    try reflexivity; try discriminate; try lia.

Lemma ltb_leb (x y : number) : (x <? y) = true -> (x <=? y) = true.
Proof. order_by_cases. Qed.

Lemma leb_not_gtb (x y : number) :
    isNaN x = false -> isNaN y = false -> (x <=? y) = negb (y <? x).
Proof. cbn [isNaN]. order_by_cases. Qed.

Lemma ltb_not_geb (x y : number) :
    isNaN x = false -> isNaN y = false -> (x <? y) = negb (y <=? x).
Proof. cbn [isNaN]. order_by_cases. Qed.

Lemma eqb_leb_leb (x y : number) : (x === y) = (x <=? y) && (y <=? x).
Proof. order_by_cases. Qed.

Lemma ltb_trans (x y z : number) :
    (x <? y) = true -> (y <? z) = true -> (x <? z) = true.
Proof. order_by_cases. Qed.

Lemma ltb_leb_trans (x y z : number) :
    (x <? y) = true -> (y <=? z) = true -> (x <? z) = true.
Proof. order_by_cases. Qed.

Lemma leb_ltb_trans (x y z : number) :
    (x <=? y) = true -> (y <? z) = true -> (x <? z) = true.
Proof. order_by_cases. Qed.

Lemma leb_trans (x y z : number) :
    (x <=? y) = true -> (y <=? z) = true -> (x <=? z) = true.
Proof. order_by_cases. Qed.

Lemma ltb_irrefl (x : number) : (x <? x) = false.
Proof. order_by_cases. Qed.

Lemma leb_refl (x : number) : isNaN x = false -> (x <=? x) = true.
Proof. cbn [isNaN]. order_by_cases. Qed.

Lemma eqb_refl (x : number) : isNaN x = false -> (x === x) = true.
Proof. cbn [isNaN]. order_by_cases. Qed.

Lemma isFinite_not_NaN (x : number) : isFinite x = true -> isNaN x = false.
Proof. destruct x; simpl; congruence. Qed.

End NumOrder.

Import NumOrder.

(** ** Deciding chains of comparisons

    [num_order] closes a goal whose hypotheses on finite numbers contain a
    cycle through a strict comparison. *)

Ltac not_nan :=
  solve [ assumption
        | apply isFinite_not_NaN; assumption
        | reflexivity ].

Ltac flip_comparisons :=
  repeat match goal with
  | H : (?x <=? ?y)%num = false |- _ =>
      let H' := fresh "Hlt" in
      assert (H' : (y <? x)%num = true)
        by (rewrite (@ltb_not_geb y x), H; [reflexivity | not_nan | not_nan]);
      clear H
  | H : (?x <? ?y)%num = false |- _ =>
      let H' := fresh "Hle" in
      assert (H' : (y <=? x)%num = true)
        by (rewrite (@leb_not_gtb y x), H; [reflexivity | not_nan | not_nan]);
      clear H
  end.

Ltac learn H :=
  let T := type of H in
  lazymatch goal with
  | _ : T |- _ => fail
  | _ => pose proof H
  end.

Ltac saturate_order :=
  repeat match goal with
  | H1 : (?x <? ?y)%num = true, H2 : (?y <? ?z)%num = true |- _ =>
      learn (@ltb_trans x y z H1 H2)
  | H1 : (?x <? ?y)%num = true, H2 : (?y <=? ?z)%num = true |- _ =>
      learn (@ltb_leb_trans x y z H1 H2)
  | H1 : (?x <=? ?y)%num = true, H2 : (?y <? ?z)%num = true |- _ =>
      learn (@leb_ltb_trans x y z H1 H2)
  | H1 : (?x <=? ?y)%num = true, H2 : (?y <=? ?z)%num = true |- _ =>
      learn (@leb_trans x y z H1 H2)
  end.

Ltac num_order :=
  exfalso; flip_comparisons; saturate_order;
  match goal with
  | H : (?x <? ?x)%num = true |- _ =>
      rewrite (ltb_irrefl x) in H; discriminate H
  end.

(** ** The validation prologue *)

Lemma assertFiniteNumbers_pass (name : string) (values : list (string * number)) :
  forallb (fun lv => isFinite (snd lv)) values = true ->
  assertFiniteNumbers name values = None.
Proof.
  induction values as [|[label v] rest IH]; simpl; [reflexivity|].
  intros H. apply andb_prop in H. destruct H as [Hv Hrest].
  unfold isFiniteNumber. rewrite Hv. simpl. auto.
Qed.

Lemma assertFiniteNumbers_fail (name : string) (values : list (string * number)) :
  forallb (fun lv => isFinite (snd lv)) values = false ->
  exists label v,
    In (label, v) values /\ isFinite v = false /\
    assertFiniteNumbers name values
    = Some (name ++ ": parameter '" ++ label ++ "' must be a finite number.").
Proof.
  induction values as [|[label v] rest IH]; simpl; [discriminate|].
  intros H. unfold isFiniteNumber. destruct (isFinite v) eqn:Hv; simpl in *.
  - destruct (IH H) as (l & w & Hin & Hw & Heq).
    exists l, w. auto.
  - exists label, v. auto.
Qed.

(** Unfolds a catalogue function whose arguments are known to be finite. *)
Ltac step_prologue :=
  unfold guarded, assertFiniteNumbers, isFiniteNumber;
  repeat match goal with
  | H : isFinite ?v = true |- context [isFinite ?v] => rewrite H
  end;
  cbn [negb].

(** Case analysis on the condition at the head of the body, one relational
    test at a time, discarding the cases the order on numbers refutes. *)
Ltac first_test c :=
  lazymatch c with
  | andb ?p _ => first_test p
  | orb ?p _ => first_test p
  | negb ?p => first_test p
  | _ => c
  end.

Ltac head_condition :=
  lazymatch goal with
  | |- (if ?c then _ else _) = _ => first_test c
  | |- throws (if ?c then _ else _) = _ => first_test c
  end.

Ltac use_known :=
  repeat match goal with
  | H : (?x <=? ?y)%num = _ |- context [(?x <=? ?y)%num] => rewrite H
  | H : (?x <? ?y)%num = _ |- context [(?x <? ?y)%num] => rewrite H
  end;
  cbn [negb andb orb].

Ltac branch :=
  unfold gtb, geb; rewrite ?eqb_leb_leb; use_known;
  repeat (let t := head_condition in
          destruct t eqn:?; cbn [negb andb orb];
          try solve [num_order]; use_known).

Section Shapes.

Local Open Scope num_scope.

Variables x a b c d : number.
Hypothesis Fx : isFinite x = true.
Hypothesis Fa : isFinite a = true.
Hypothesis Fb : isFinite b = true.
Hypothesis Fc : isFinite c = true.
Hypothesis Fd : isFinite d = true.

(** Once its own validation has passed, [piCurve] returns: a delegated call
    is made only with a strictly ordered pair. *)
Lemma piCurve_returns :
  (a <=? b) = true -> (b <=? c) = true -> (c <=? d) = true ->
  throws (piCurve x a b c d) = false.
Proof.
  intros Hab Hbc Hcd. unfold piCurve, sCurve, zCurve. step_prologue.
  branch; reflexivity.
Qed.

(** On the rising edge [piCurve] is the delegated [sCurve] call, on the
    falling edge the delegated [zCurve] call. *)
Lemma piCurve_rising :
  (a <=? b) = true -> (b <=? c) = true -> (c <=? d) = true ->
  (a <? x) = true -> (x <? b) = true ->
  piCurve x a b c d = sCurve x a b.
Proof.
  intros Hab Hbc Hcd Hax Hxb. unfold piCurve.
  generalize (sCurve x a b). intros s. step_prologue.
  branch; reflexivity.
Qed.

Lemma piCurve_falling :
  (a <=? b) = true -> (b <=? c) = true -> (c <=? d) = true ->
  (c <? x) = true -> (x <? d) = true ->
  piCurve x a b c d = zCurve x c d.
Proof.
  intros Hab Hbc Hcd Hcx Hxd. unfold piCurve.
  generalize (sCurve x a b) (zCurve x c d). intros s z. step_prologue.
  branch; reflexivity.
Qed.

Lemma piCurve_plateau :
  (a <=? b) = true -> (b <=? c) = true -> (c <=? d) = true ->
  (b <=? x) = true -> (x <=? c) = true ->
  piCurve x a b c d = Return (if (a <? x) && (x <? d) then one else zero).
Proof.
  intros Hab Hbc Hcd Hbx Hxc. unfold piCurve.
  generalize (sCurve x a b) (zCurve x c d). intros s z. step_prologue.
  branch; try reflexivity.
  all: destruct (a <? x) eqn:?; destruct (x <? d) eqn:?; try reflexivity;
    num_order.
Qed.

Lemma piCurve_outside :
  (a <=? b) = true -> (b <=? c) = true -> (c <=? d) = true ->
  (x <=? a) || (d <=? x) = true ->
  piCurve x a b c d = Return zero.
Proof.
  intros Hab Hbc Hcd Hout. unfold piCurve.
  generalize (sCurve x a b) (zCurve x c d). intros s z. step_prologue.
  unfold gtb, geb. rewrite Hab, Hbc, Hcd, Hout. reflexivity.
Qed.

Lemma triangular_at_peak :
  (a <=? b) = true -> (b <=? c) = true ->
  triangular b a b c = Return (if (a <? b) && (b <? c) then one else zero).
Proof.
  intros Hab Hbc. unfold triangular. step_prologue.
  branch; try reflexivity.
  all: destruct (a <? b) eqn:?; destruct (b <? c) eqn:?; try reflexivity;
    num_order.
Qed.

Lemma trapezoidal_on_plateau :
  (a <=? b) = true -> (b <=? c) = true -> (c <=? d) = true ->
  (b <=? x) = true -> (x <=? c) = true ->
  trapezoidal x a b c d = Return (if (a <? x) && (x <? d) then one else zero).
Proof.
  intros Hab Hbc Hcd Hbx Hxc. unfold trapezoidal. step_prologue.
  branch; try reflexivity.
  all: destruct (a <? x) eqn:?; destruct (x <? d) eqn:?; try reflexivity;
    num_order.
Qed.

End Shapes.

(** * Rounding in binary64

    What the claims need of [SFsub]: the mantissa a rounding returns, the
    values it returns unchanged, and the sign and size of [1 - mu]. *)

Module Binary64.

Local Open Scope Z_scope.

Lemma iter_pos_nat {A} (f : A -> A) (n : positive) (x : A) :
  iter_pos f n x = Nat.iter (Pos.to_nat n) f x.
Proof.
  revert x. induction n as [n IH|n IH|]; intros x; cbn [iter_pos].
  - rewrite !IH, <- Nat.iter_add, <- Nat.iter_succ_r.
    f_equal. lia.
  - rewrite !IH, <- Nat.iter_add. f_equal. lia.
  - reflexivity.
Qed.

Lemma shr_1_m (r : shr_record) : 0 <= shr_m r -> shr_m (shr_1 r) = shr_m r / 2.
Proof.
  destruct r as [m r s]. simpl. intros Hm.
  destruct m as [|p|p]; [reflexivity| |lia].
  destruct p as [p|p|]; simpl shr_m.
  - rewrite Pos2Z.inj_xI. apply Z.div_unique with (r := 1); lia.
  - rewrite Pos2Z.inj_xO. apply Z.div_unique with (r := 0); lia.
  - reflexivity.
Qed.

Lemma iter_shr_1_m (k : nat) (r : shr_record) :
  0 <= shr_m r -> shr_m (Nat.iter k shr_1 r) = shr_m r / 2 ^ Z.of_nat k.
Proof.
  intros Hm. induction k as [|k IH].
  - simpl. now rewrite Z.div_1_r.
  - rewrite Nat.iter_succ, shr_1_m, IH.
    + rewrite Nat2Z.inj_succ, Z.pow_succ_r by lia.
      rewrite Z.div_div by lia. f_equal. lia.
    + rewrite IH. apply Z.div_pos; lia.
Qed.

Lemma shr_spec (r : shr_record) (e n : Z) :
  0 <= shr_m r ->
  shr_m (fst (shr r e n)) = shr_m r / 2 ^ Z.max 0 n /\
  snd (shr r e n) = e + Z.max 0 n.
Proof.
  intros Hm. destruct n as [|p|p]; simpl.
  - rewrite Z.div_1_r. split; [reflexivity|lia].
  - rewrite iter_pos_nat, iter_shr_1_m by assumption.
    rewrite positive_nat_Z. split; [reflexivity|lia].
  - rewrite Z.div_1_r. split; [reflexivity|lia].
Qed.

Lemma shr_1_exact (M : Z) :
  0 <= M ->
  shr_1 (Build_shr_record (2 * M) false false) = Build_shr_record M false false.
Proof.
  intros HM. destruct M as [|p|p]; [reflexivity|reflexivity|lia].
Qed.

Lemma iter_shr_1_exact (k : nat) (M : Z) :
  0 <= M ->
  Nat.iter k shr_1 (Build_shr_record (M * 2 ^ Z.of_nat k) false false)
  = Build_shr_record M false false.
Proof.
  intros HM. induction k as [|k IH].
  - simpl. f_equal. lia.
  - rewrite Nat.iter_succ_r.
    rewrite Nat2Z.inj_succ, Z.pow_succ_r by lia.
    replace (M * (2 * 2 ^ Z.of_nat k)) with (2 * (M * 2 ^ Z.of_nat k)) by lia.
    rewrite shr_1_exact by (apply Z.mul_nonneg_nonneg; lia). exact IH.
Qed.

Lemma shr_exact (M e n : Z) :
  0 <= M -> 0 <= n ->
  shr (Build_shr_record (M * 2 ^ n) false false) e n
  = (Build_shr_record M false false, e + n).
Proof.
  intros HM Hn. destruct n as [|p|p]; [| |lia].
  - cbn [shr]. f_equal; [f_equal|]; lia.
  - cbn [shr]. rewrite iter_pos_nat, <- (positive_nat_Z p) at 1.
    rewrite iter_shr_1_exact by assumption. reflexivity.
Qed.

Lemma round_nearest_even_bounds (q : Z) (l : location) :
  q <= round_nearest_even q l <= q + 1.
Proof.
  destruct l as [|[ | | ]]; simpl; try lia. destruct (Z.even q); lia.
Qed.

Lemma digits2_pos_size (m : positive) : digits2_pos m = Pos.size m.
Proof. induction m; simpl; congruence. Qed.

Lemma digits2_bounds (m : positive) :
  2 ^ (Zpos (digits2_pos m) - 1) <= Zpos m < 2 ^ Zpos (digits2_pos m).
Proof.
  rewrite digits2_pos_size.
  pose proof (Pos.size_le m) as Hle. pose proof (Pos.size_gt m) as Hgt.
  assert (Hle' : 2 ^ Zpos (Pos.size m) <= 2 * Zpos m).
  { rewrite <- Pos2Z.inj_pow. exact Hle. }
  assert (Hgt' : Zpos m < 2 ^ Zpos (Pos.size m)).
  { rewrite <- Pos2Z.inj_pow. exact Hgt. }
  split; [|assumption].
  replace (Zpos (Pos.size m)) with (Z.succ (Zpos (Pos.size m) - 1)) in Hle' by lia.
  rewrite Z.pow_succ_r in Hle' by lia. lia.
Qed.

Lemma digits2_unique (m : positive) (k : Z) :
  2 ^ (k - 1) <= Zpos m < 2 ^ k -> Zpos (digits2_pos m) = k.
Proof.
  intros [Hlo Hhi]. pose proof (digits2_bounds m) as [Dlo Dhi].
  set (d := Zpos (digits2_pos m)) in *.
  assert (0 < d) by (subst d; lia).
  destruct (Z.lt_trichotomy d k) as [Hlt|[Heq|Hgt]]; [|assumption|].
  - exfalso. assert (2 ^ d <= 2 ^ (k - 1)) by (apply Z.pow_le_mono_r; lia). lia.
  - exfalso. assert (0 <= k).
    { destruct (Z.le_gt_cases 0 k); [assumption|]. rewrite Z.pow_neg_r in Hhi; lia. }
    assert (2 ^ k <= 2 ^ (d - 1)) by (apply Z.pow_le_mono_r; lia). lia.
Qed.

Lemma iter_xO (m k : positive) : Zpos (Pos.iter xO m k) = Zpos m * 2 ^ Zpos k.
Proof.
  induction k as [|k IH] using Pos.peano_ind.
  - cbn [Pos.iter]. rewrite Pos2Z.inj_xO. lia.
  - rewrite Pos.iter_succ, Pos2Z.inj_xO, IH, Pos2Z.inj_succ, Z.pow_succ_r by lia.
    lia.
Qed.

Lemma shl_align_spec (m : positive) (e e' : Z) :
  Zpos (fst (shl_align m e e')) = Zpos m * 2 ^ Z.max 0 (e - e') /\
  snd (shl_align m e e') = Z.min e e'.
Proof.
  unfold shl_align. destruct (e' - e) as [|p|p] eqn:He; cbn [fst snd].
  - replace (Z.max 0 (e - e')) with 0 by lia.
    rewrite Z.pow_0_r, Z.mul_1_r. split; lia.
  - replace (Z.max 0 (e - e')) with 0 by lia.
    rewrite Z.pow_0_r, Z.mul_1_r. split; lia.
  - rewrite iter_xO. replace (Z.max 0 (e - e')) with (Zpos p) by lia. split; lia.
Qed.

Lemma fexp64_eq (e : Z) : fexp64 e = Z.max (e - 53) (-1074).
Proof. reflexivity. Qed.

Lemma Zdigits2_nonneg (m : Z) : 0 <= Zdigits2 m.
Proof. destruct m; simpl; lia. Qed.

Lemma Zdigits2_shift (M n : Z) :
  0 < M -> 0 <= n -> Zdigits2 (M * 2 ^ n) = Zdigits2 M + n.
Proof.
  intros HM Hn. destruct M as [|p|p]; try lia.
  assert (Hpos : 0 < Zpos p * 2 ^ n) by (apply Z.mul_pos_pos; lia).
  destruct (Zpos p * 2 ^ n) as [|r|r] eqn:Hr; try lia.
  cbn [Zdigits2]. apply digits2_unique. rewrite <- Hr.
  pose proof (digits2_bounds p) as [Hlo Hhi].
  replace (Zpos (digits2_pos p) + n - 1) with (Zpos (digits2_pos p) - 1 + n) by lia.
  rewrite !Z.pow_add_r by lia. split.
  - apply Z.mul_le_mono_nonneg_r; lia.
  - apply Z.mul_lt_mono_pos_r; lia.
Qed.

Lemma shr_fexp_spec (m e : Z) (l : location) :
  0 <= m ->
  let n := Z.max 0 (fexp64 (Zdigits2 m + e) - e) in
  shr_m (fst (shr_fexp prec emax m e l)) = m / 2 ^ n /\
  snd (shr_fexp prec emax m e l) = e + n.
Proof.
  intros Hm n. unfold shr_fexp.
  assert (Hr : shr_m (shr_record_of_loc m l) = m) by (destruct l as [|[ | | ]]; reflexivity).
  pose proof (shr_spec (shr_record_of_loc m l) e (fexp64 (Zdigits2 m + e) - e)) as H.
  rewrite Hr in H. apply H. assumption.
Qed.

(** The result of a rounding: the mantissa is divided by the power of two the
    format asks for, moved up by at most one unit, and renormalised once. *)
Lemma binary_round_aux_shape (s : bool) (m e : Z) (l : location) :
  0 <= m ->
  let n1 := Z.max 0 (fexp64 (Zdigits2 m + e) - e) in
  exists q',
    m / 2 ^ n1 <= q' <= m / 2 ^ n1 + 1 /\
    let e1 := e + n1 in
    let n2 := Z.max 0 (fexp64 (Zdigits2 q' + e1) - e1) in
    binary_round_aux prec emax s m e l = assemble s (q' / 2 ^ n2) (e1 + n2).
Proof.
  intros Hm n1. unfold binary_round_aux.
  pose proof (shr_fexp_spec m e l Hm) as [Hq He1]. fold n1 in Hq, He1.
  destruct (shr_fexp prec emax m e l) as [mrs' e'] eqn:H1. cbn [fst snd] in Hq, He1.
  set (q' := round_nearest_even (shr_m mrs') (loc_of_shr_record mrs')).
  pose proof (round_nearest_even_bounds (shr_m mrs') (loc_of_shr_record mrs')) as Hb.
  fold q' in Hb. rewrite Hq in Hb.
  assert (Hq0 : 0 <= m / 2 ^ n1) by (apply Z.div_pos; lia).
  exists q'. split; [exact Hb|]. cbn zeta.
  pose proof (shr_fexp_spec q' e' loc_Exact) as H2.
  destruct (shr_fexp prec emax q' e' loc_Exact) as [mrs'' e''] eqn:H3.
  cbn [fst snd] in H2. destruct H2 as [Hq2 He2]; [lia|].
  rewrite <- He1. rewrite <- Hq2, <- He2. reflexivity.
Qed.

Lemma binary_round_aux_exact (s : bool) (M e n : Z) :
  0 < M -> 0 <= n ->
  fexp64 (Zdigits2 (M * 2 ^ n) + e) - e <= n ->
  (n = 0 \/ fexp64 (Zdigits2 (M * 2 ^ n) + e) - e = n) ->
  binary_round_aux prec emax s (M * 2 ^ n) e loc_Exact = assemble s M (e + n).
Proof.
  intros HM Hn Hle Hsh. unfold binary_round_aux, shr_fexp.
  cbn [shr_record_of_loc].
  set (k := fexp64 (Zdigits2 (M * 2 ^ n) + e) - e) in *.
  assert (Hshr : shr (Build_shr_record (M * 2 ^ n) false false) e k
                 = (Build_shr_record M false false, e + n)).
  { destruct Hsh as [Hn0|Hk].
    - subst n. rewrite Z.pow_0_r, Z.mul_1_r, Z.add_0_r.
      destruct k; try lia; reflexivity.
    - rewrite Hk. apply shr_exact; lia. }
  rewrite Hshr. cbn [shr_m loc_of_shr_record round_nearest_even shr_record_of_loc].
  assert (Hk2 : fexp64 (Zdigits2 M + (e + n)) - (e + n) <= 0).
  { pose proof (Zdigits2_shift M n HM Hn) as Hd.
    replace (Zdigits2 M + (e + n)) with (Zdigits2 (M * 2 ^ n) + e) by lia.
    fold k. destruct Hsh as [Hn0|Hk]; lia. }
  destruct (fexp64 (Zdigits2 M + (e + n)) - (e + n)) eqn:Hk3; try lia; reflexivity.
Qed.

Lemma assemble_nonneg_not_nan (s : bool) (q e : Z) :
  0 <= q -> isNaN (assemble s q e) = false.
Proof.
  intros Hq. destruct q as [|p|p]; cbn [assemble]; [reflexivity| |lia].
  destruct (e <=? emax - prec); reflexivity.
Qed.

Lemma binary_round_aux_not_nan (s : bool) (m e : Z) (l : location) :
  0 <= m -> isNaN (binary_round_aux prec emax s m e l) = false.
Proof.
  intros Hm. destruct (binary_round_aux_shape s m e l Hm) as (q' & Hq' & Heq).
  cbn zeta in Heq. rewrite Heq. apply assemble_nonneg_not_nan.
  assert (0 <= m / 2 ^ Z.max 0 (fexp64 (Zdigits2 m + e) - e)) by (apply Z.div_pos; lia).
  apply Z.div_pos; lia.
Qed.

Lemma binary_round_not_nan (s : bool) (M : positive) (E : Z) :
  isNaN (binary_round prec emax s M E) = false.
Proof.
  unfold binary_round. destruct (shl_align M E _) as [mz ez].
  apply binary_round_aux_not_nan. lia.
Qed.

Lemma binary_normalize_not_nan (D E : Z) (sz : bool) :
  isNaN (binary_normalize prec emax D E sz) = false.
Proof.
  destruct D; simpl; [reflexivity| |]; apply binary_round_not_nan.
Qed.

(** Shifting by what the format asks for never empties a mantissa that sits
    at or above the least exponent. *)
Lemma shifted_mantissa_pos (m e : Z) :
  1 <= m -> -1074 <= e ->
  1 <= m / 2 ^ Z.max 0 (fexp64 (Zdigits2 m + e) - e).
Proof.
  intros Hm He. destruct m as [|p|p]; try lia. cbn [Zdigits2].
  pose proof (digits2_bounds p) as [Hlo _].
  set (d := Zpos (digits2_pos p)) in *.
  set (n := Z.max 0 (fexp64 (d + e) - e)).
  assert (Hn : 0 <= n <= d - 1) by (subst n d; rewrite fexp64_eq; lia).
  apply Z.div_le_lower_bound; [apply Z.pow_pos_nonneg; lia|].
  rewrite Z.mul_1_r. transitivity (2 ^ (d - 1)); [|assumption].
  apply Z.pow_le_mono_r; lia.
Qed.

Lemma binary_round_aux_pos (s : bool) (m e : Z) (l : location) :
  1 <= m -> -1074 <= e ->
  let t := Z.max e (fexp64 (Zdigits2 m + e)) in
  binary_round_aux prec emax s m e l = S754_infinity s \/
  exists m' e',
    binary_round_aux prec emax s m e l = S754_finite s m' e' /\
    (t < e' \/ (e' = t /\ m / 2 ^ (t - e) <= Zpos m')).
Proof.
  intros Hm He t.
  destruct (binary_round_aux_shape s m e l) as (q' & Hq' & Heq); [lia|].
  cbn zeta in Heq.
  set (n1 := Z.max 0 (fexp64 (Zdigits2 m + e) - e)) in *.
  assert (Ht : e + n1 = t) by (subst t n1; lia).
  rewrite Ht in Heq.
  pose proof (shifted_mantissa_pos m e Hm He) as Hq1. fold n1 in Hq1.
  assert (Ht74 : -1074 <= t) by lia.
  assert (Hq'1 : 1 <= q') by lia.
  pose proof (shifted_mantissa_pos q' t Hq'1 Ht74) as Hq2.
  set (n2 := Z.max 0 (fexp64 (Zdigits2 q' + t) - t)) in *.
  rewrite Heq. destruct (q' / 2 ^ n2) as [|p|p] eqn:Hp; try lia.
  cbn [assemble]. destruct (t + n2 <=? emax - prec); [right|left; reflexivity].
  exists p, (t + n2). split; [reflexivity|].
  destruct (Z.eq_dec n2 0) as [Hz|Hnz].
  - right. split; [lia|]. rewrite Hz, Z.pow_0_r, Z.div_1_r in Hp.
    replace (t - e) with n1 by lia. lia.
  - left. subst n2. lia.
Qed.

Lemma binary_round_pos (s : bool) (M : positive) (E : Z) :
  -1074 <= E ->
  binary_round prec emax s M E = S754_infinity s \/
  exists m' e', binary_round prec emax s M E = S754_finite s m' e'.
Proof.
  intros HE. unfold binary_round.
  pose proof (shl_align_spec M E (fexp64 (Zpos (digits2_pos M) + E))) as [_ Hez].
  destruct (shl_align M E _) as [mz ez]. cbn [snd] in Hez.
  destruct (binary_round_aux_pos s (Zpos mz) ez loc_Exact) as [H|(m' & e' & H & _)];
    [lia|rewrite fexp64_eq in Hez; lia|left; exact H|right; eauto].
Qed.

(** A value that has a bounded canonical mantissa is returned as it is. *)
Lemma binary_round_canonical (s : bool) (M : positive) (E : Z) (m : positive) (e : Z) :
  bounded prec emax m e = true ->
  Zpos M * 2 ^ (E - Z.min E e) = Zpos m * 2 ^ (e - Z.min E e) ->
  binary_round prec emax s M E = S754_finite s m e.
Proof.
  intros Hb Hval. unfold bounded, canonical_mantissa in Hb.
  apply andb_prop in Hb. destruct Hb as [Hcan Hmax].
  apply Z.eqb_eq in Hcan. apply Z.leb_le in Hmax.
  assert (Hmag : Zpos (digits2_pos M) + E = Zpos (digits2_pos m) + e).
  { pose proof (Zdigits2_shift (Zpos M) (E - Z.min E e)) as H1.
    pose proof (Zdigits2_shift (Zpos m) (e - Z.min E e)) as H2.
    rewrite Hval in H1. rewrite H1 in H2 by lia. cbn [Zdigits2] in H2. lia. }
  unfold binary_round. rewrite Hmag, Hcan.
  pose proof (shl_align_spec M E e) as [Hmz Hez].
  destruct (shl_align M E e) as [mz ez]. cbn [fst snd] in Hmz, Hez.
  destruct (Z.le_ge_cases e E) as [HeE|HEe].
  - replace (Z.min E e) with e in * by lia.
    replace (Z.max 0 (E - e)) with (E - e) in Hmz by lia.
    replace (e - e) with 0 in Hval by lia. rewrite Z.pow_0_r, Z.mul_1_r in Hval.
    assert (Hm : Zpos mz = Zpos m * 2 ^ 0) by (rewrite Z.pow_0_r; lia).
    rewrite Hm, Hez, binary_round_aux_exact; try lia.
    + rewrite Z.add_0_r. cbn [assemble]. apply Z.leb_le in Hmax. now rewrite Hmax.
    + rewrite Z.pow_0_r, Z.mul_1_r. cbn [Zdigits2]. lia.
  - replace (Z.min E e) with E in * by lia.
    replace (Z.max 0 (E - e)) with 0 in Hmz by lia.
    replace (E - E) with 0 in Hval by lia.
    rewrite Z.pow_0_r, Z.mul_1_r in Hval, Hmz.
    rewrite Hmz, Hval, Hez.
    assert (Hd : Zdigits2 (Zpos m * 2 ^ (e - E)) + E = Zpos (digits2_pos m) + e).
    { rewrite Zdigits2_shift by lia. cbn [Zdigits2]. lia. }
    rewrite binary_round_aux_exact; try lia.
    + replace (E + (e - E)) with e by lia. cbn [assemble].
      apply Z.leb_le in Hmax. now rewrite Hmax.
    + rewrite Hd. lia.
    + right. rewrite Hd. lia.
Qed.

Lemma bounded_spec (m : positive) (e : Z) :
  bounded prec emax m e = true ->
  fexp64 (Zpos (digits2_pos m) + e) = e /\ e <= 971.
Proof.
  unfold bounded, canonical_mantissa. intros H.
  apply andb_prop in H. destruct H as [H1 H2].
  apply Z.eqb_eq in H1. apply Z.leb_le in H2. split; [assumption|exact H2].
Qed.

Lemma bounded_range (m : positive) (e : Z) :
  bounded prec emax m e = true ->
  -1074 <= e <= 971 /\ Zpos (digits2_pos m) <= 53 /\
  (-1074 < e -> Zpos (digits2_pos m) = 53).
Proof.
  intros H. apply bounded_spec in H. destruct H as [H1 H2].
  rewrite fexp64_eq in H1. lia.
Qed.

Lemma sub_finite (sx : bool) (mx : positive) (ex : Z)
                 (sy : bool) (my : positive) (ey : Z) :
  sub (S754_finite sx mx ex) (S754_finite sy my ey)
  = binary_normalize prec emax
      (cond_Zopp sx (Zpos mx * 2 ^ (ex - Z.min ex ey))
       - cond_Zopp sy (Zpos my * 2 ^ (ey - Z.min ex ey)))
      (Z.min ex ey) false.
Proof.
  unfold sub, SFsub.
  pose proof (shl_align_spec mx ex (Z.min ex ey)) as [H1 _].
  pose proof (shl_align_spec my ey (Z.min ex ey)) as [H2 _].
  rewrite H1, H2.
  replace (Z.max 0 (ex - Z.min ex ey)) with (ex - Z.min ex ey) by lia.
  replace (Z.max 0 (ey - Z.min ex ey)) with (ey - Z.min ex ey) by lia.
  reflexivity.
Qed.

Lemma sub_finite_not_nan (x y : number) :
  isFinite x = true -> isFinite y = true -> isNaN (sub x y) = false.
Proof.
  destruct x as [sx|sx| |sx mx ex], y as [sy|sy| |sy my ey]; try discriminate;
    intros _ _.
  - destruct sx, sy; reflexivity.
  - reflexivity.
  - reflexivity.
  - rewrite sub_finite. apply binary_normalize_not_nan.
Qed.

Lemma binary_normalize_truthy (D E : Z) (sz : bool) :
  D <> 0 -> -1074 <= E -> truthy (binary_normalize prec emax D E sz) = true.
Proof.
  intros HD HE. destruct D as [|p|p]; [lia| |]; cbn [binary_normalize].
  - destruct (binary_round_pos false p E HE) as [H|(m' & e' & H)]; rewrite H; reflexivity.
  - destruct (binary_round_pos true p E HE) as [H|(m' & e' & H)]; rewrite H; reflexivity.
Qed.

(** Two bounded canonical mantissas at different exponents never align to
    the same integer. *)
Lemma aligned_neq (ma : positive) (ea : Z) (mb : positive) (eb : Z) :
  bounded prec emax ma ea = true -> bounded prec emax mb eb = true ->
  ea < eb ->
  Zpos ma <> Zpos mb * 2 ^ (eb - ea).
Proof.
  intros Ha Hb Hlt Heq.
  apply bounded_spec in Ha, Hb. destruct Ha as [Ha _], Hb as [Hb _].
  pose proof (Zdigits2_shift (Zpos mb) (eb - ea)) as Hd.
  rewrite <- Heq in Hd. cbn [Zdigits2] in Hd.
  assert (Hmag : Zpos (digits2_pos ma) + ea = Zpos (digits2_pos mb) + eb) by lia.
  rewrite Hmag in Ha. lia.
Qed.

Lemma Zpow_pos (k : Z) : 0 <= k -> 0 < 2 ^ k.
Proof. intros. apply Z.pow_pos_nonneg; lia. Qed.

(** Gradual underflow: the difference of two distinct finite numbers is
    never a zero. *)
Lemma sub_truthy (a b : number) :
  valid a = true -> valid b = true ->
  isFinite a = true -> isFinite b = true ->
  ltb a b = true -> truthy (sub b a) = true.
Proof.
  destruct a as [sa|sa| |sa ma ea], b as [sb|sb| |sb mb eb]; try discriminate;
    intros Va Vb _ _ Hlt.
  - reflexivity.
  - reflexivity.
  - rewrite sub_finite. cbn [valid valid_binary] in Va, Vb.
    pose proof (bounded_range _ _ Va) as [Hea _].
    pose proof (bounded_range _ _ Vb) as [Heb _].
    apply binary_normalize_truthy; [|lia].
    pose proof (Zpow_pos (ea - Z.min eb ea)) as Pa.
    pose proof (Zpow_pos (eb - Z.min eb ea)) as Pb.
    assert (0 < Zpos ma * 2 ^ (ea - Z.min eb ea)) by (apply Z.mul_pos_pos; lia).
    assert (0 < Zpos mb * 2 ^ (eb - Z.min eb ea)) by (apply Z.mul_pos_pos; lia).
    unfold ltb, SFltb in Hlt. cbn [SFcompare] in Hlt.
    change (Pos.compare_cont Eq ma mb) with (Pos.compare ma mb) in Hlt.
    destruct sa, sb; cbn [cond_Zopp]; try discriminate; try lia.
    + destruct (Z.compare_spec ea eb) as [He|He|He]; try discriminate.
      * subst eb. replace (ea - Z.min ea ea) with 0 by lia.
        rewrite Z.pow_0_r. destruct (Pos.compare_spec ma mb); try discriminate; lia.
      * replace (Z.min eb ea) with eb by lia.
        replace (eb - eb) with 0 by lia. rewrite Z.pow_0_r.
        pose proof (aligned_neq mb eb ma ea Vb Va He). lia.
    + destruct (Z.compare_spec ea eb) as [He|He|He]; try discriminate.
      * subst eb. replace (ea - Z.min ea ea) with 0 by lia.
        rewrite Z.pow_0_r. destruct (Pos.compare_spec ma mb); try discriminate; lia.
      * replace (Z.min eb ea) with ea by lia.
        replace (ea - ea) with 0 by lia. rewrite Z.pow_0_r.
        pose proof (aligned_neq ma ea mb eb Va Vb He). lia.
Qed.

Lemma clamp01_in_unit (v : number) :
  isNaN v = false -> in_unit (clamp01 v) = true.
Proof.
  intros Hv. unfold clamp01, in_unit, gtb.
  destruct (ltb v zero) eqn:H0; [reflexivity|].
  destruct (ltb one v) eqn:H1; [reflexivity|].
  rewrite (leb_not_gtb zero v), H0 by (reflexivity || assumption).
  rewrite (leb_not_gtb v one), H1 by (reflexivity || assumption).
  reflexivity.
Qed.

Lemma clamp01_negative (v : number) :
  ltb v zero = true -> clamp01 v = zero.
Proof. intros H. unfold clamp01. now rewrite H. Qed.

Lemma clamp01_at_least_one (v : number) :
  leb one v = true -> clamp01 v = one.
Proof.
  intros H. unfold clamp01, gtb.
  destruct (ltb v zero) eqn:H0.
  - exfalso. assert (Hc : ltb one zero = true) by (eapply leb_ltb_trans; eassumption).
    discriminate Hc.
  - destruct (ltb one v) eqn:H1; [reflexivity|].
    (* neither above nor below: the value is the canonical one *)
    destruct v as [s|s| |s m e]; try discriminate; try (destruct s; discriminate).
    unfold leb, ltb, SFleb, SFltb, one in *. cbn [SFcompare] in *.
    destruct s; [discriminate|].
    change (Pos.compare_cont Eq 4503599627370496 m)
      with (Pos.compare 4503599627370496 m) in *.
    destruct (Z.compare_spec (-52) e); try discriminate.
    destruct (Pos.compare_spec 4503599627370496 m); try discriminate.
    subst. reflexivity.
Qed.

Lemma complement_finite (mu : number) :
  isFinite mu = true ->
  complement mu = Return (clamp01 (sub one mu)) /\
  in_unit (clamp01 (sub one mu)) = true.
Proof.
  intros Hmu. unfold complement, isFiniteNumber. rewrite Hmu. split; [reflexivity|].
  apply clamp01_in_unit. apply sub_finite_not_nan; [reflexivity|assumption].
Qed.

Lemma pow2_52 : 2 ^ 52 = 4503599627370496.
Proof. reflexivity. Qed.

Lemma complement_above (mu : number) :
  valid mu = true -> isFinite mu = true -> ltb one mu = true ->
  complement mu = Return zero.
Proof.
  intros V F H. destruct (complement_finite mu F) as [-> _]. f_equal.
  apply clamp01_negative.
  destruct mu as [s|s| |s m e]; try discriminate.
  unfold one. rewrite sub_finite. cbn [valid valid_binary] in V.
  pose proof (bounded_range _ _ V) as (He & Hd & Hn).
  pose proof (digits2_bounds m) as [Hlo _].
  unfold ltb, SFltb, one in H. cbn [SFcompare] in H.
  destruct s; [discriminate|]. cbn [cond_Zopp].
  change (Pos.compare_cont Eq 4503599627370496 m)
    with (Pos.compare 4503599627370496 m) in H.
  assert (HD : 4503599627370496 * 2 ^ (-52 - Z.min (-52) e)
               - Zpos m * 2 ^ (e - Z.min (-52) e) < 0).
  { destruct (Z.compare_spec (-52) e) as [He2|He2|He2]; try discriminate.
    - subst e. change (Z.min (-52) (-52)) with (-52).
      change (-52 - -52) with 0. rewrite Z.pow_0_r.
      destruct (Pos.compare_spec 4503599627370496 m); try discriminate. lia.
    - replace (Z.min (-52) e) with (-52) by lia.
      change (-52 - -52) with 0. rewrite Z.pow_0_r.
      rewrite Hn in Hlo by lia. change (2 ^ (53 - 1)) with 4503599627370496 in Hlo.
      assert (2 ^ 1 <= 2 ^ (e - -52)) by (apply Z.pow_le_mono_r; lia).
      change (2 ^ 1) with 2 in *. nia. }
  match goal with |- context [binary_normalize _ _ ?D _ _] =>
    destruct D as [|p|p] eqn:HDp end; try lia.
  cbn [binary_normalize].
  destruct (binary_round_pos true p (Z.min (-52) e)) as [R|(m' & e' & R)];
    [lia| |]; rewrite R; reflexivity.
Qed.

Lemma complement_below (mu : number) :
  valid mu = true -> isFinite mu = true -> ltb mu zero = true ->
  complement mu = Return one.
Proof.
  intros V F H. destruct (complement_finite mu F) as [-> _]. f_equal.
  apply clamp01_at_least_one.
  destruct mu as [s|s| |s m e]; try discriminate.
  unfold one. rewrite sub_finite. cbn [valid valid_binary] in V.
  pose proof (bounded_range _ _ V) as (He & _).
  destruct s; [|discriminate]. cbn [cond_Zopp].
  set (ez := Z.min (-52) e).
  assert (Hez : -1074 <= ez <= -52) by (subst ez; lia).
  pose proof (Zpow_pos (e - ez)) as Pe.
  assert (HA : 4503599627370496 * 2 ^ (-52 - ez) = 2 ^ (- ez)).
  { rewrite <- pow2_52, <- Z.pow_add_r by lia. f_equal. lia. }
  rewrite HA.
  assert (HD : 2 ^ (- ez) <= 2 ^ (- ez) - - (Zpos m * 2 ^ (e - ez))) by (subst ez; nia).
  pose proof (Zpow_pos (- ez)) as Pz.
  match goal with |- context [binary_normalize _ _ ?D _ _] =>
    destruct D as [|p|p] eqn:HDp end; try lia.
  cbn [binary_normalize]. unfold binary_round.
  pose proof (digits2_bounds p) as [_ Hhi].
  assert (Hdp : - ez < Zpos (digits2_pos p)).
  { apply (Z.pow_lt_mono_r_iff 2); lia. }
  set (t := fexp64 (Zpos (digits2_pos p) + ez)).
  assert (Ht : -52 <= t) by (subst t; rewrite fexp64_eq; lia).
  assert (Hal : shl_align p ez t = (p, ez)).
  { unfold shl_align. destruct (t - ez) eqn:Hk; try lia; reflexivity. }
  rewrite Hal.
  destruct (binary_round_aux_pos false (Zpos p) ez loc_Exact)
    as [R|(m' & e' & R & Hr)]; [lia|lia| |]; rewrite R; [reflexivity|].
  cbn [Zdigits2] in Hr. fold t in Hr.
  replace (Z.max ez t) with t in Hr by lia.
  unfold leb, SFleb. cbn [SFcompare].
  change (Pos.compare_cont Eq 4503599627370496 m')
    with (Pos.compare 4503599627370496 m').
  destruct (Z.compare_spec (-52) e') as [He2|He2|He2]; [|reflexivity|].
  - subst e'. destruct Hr as [Hr|[Hr1 Hr2]]; [exfalso; clear - Hr Ht; lia|].
    assert (Hq : 4503599627370496 <= Zpos p / 2 ^ (t - ez)).
    { apply Z.div_le_lower_bound; [apply Zpow_pos; clear - Hr1 Hez; lia|].
      rewrite <- Hr1. rewrite <- pow2_52, <- Z.pow_add_r by (clear - Hez; lia).
      replace (-52 - ez + 52) with (- ez) by (clear; lia). exact HD. }
    destruct (Pos.compare_spec 4503599627370496 m') as [Hc|Hc|Hc]; try reflexivity.
    exfalso. clear - Hq Hr2 Hc. apply Pos2Z.pos_lt_pos in Hc.
    generalize dependent (Z.pos p / 2 ^ (-52 - ez)). intros; lia.
  - exfalso. destruct Hr as [Hr|[Hr1 Hr2]];
      [clear - Hr Ht He2 | clear - Hr1 Ht He2]; lia.
Qed.

Lemma binary_normalize_canonical (D E : Z) (m : positive) (e : Z) :
  bounded prec emax m e = true ->
  D * 2 ^ (E - Z.min E e) = Zpos m * 2 ^ (e - Z.min E e) ->
  binary_normalize prec emax D E false = S754_finite false m e.
Proof.
  intros Hb Hval.
  assert (HD : 0 < D).
  { pose proof (Zpow_pos (E - Z.min E e)). pose proof (Zpow_pos (e - Z.min E e)).
    assert (0 < Zpos m * 2 ^ (e - Z.min E e)) by (apply Z.mul_pos_pos; lia).
    rewrite <- Hval in *. nia. }
  destruct D as [|p|p]; try lia. cbn [binary_normalize].
  now apply binary_round_canonical.
Qed.

(** When [m * 2^e] and [mR * 2^eR] add up to one and the second is a
    binary64 value, [1 - m * 2^e] is computed without rounding. *)
Lemma sub_one_exact (m : positive) (e : Z) (mR : positive) (eR : Z) :
  e <= -52 -> bounded prec emax mR eR = true ->
  Zpos m * 2 ^ (e - Z.min e eR) + Zpos mR * 2 ^ (eR - Z.min e eR)
  = 2 ^ (- Z.min e eR) ->
  sub one (S754_finite false m e) = S754_finite false mR eR.
Proof.
  intros He Hb Hsum. unfold one. rewrite sub_finite. cbn [cond_Zopp].
  replace (Z.min (-52) e) with e by lia.
  replace (e - e) with 0 by lia. rewrite Z.pow_0_r, Z.mul_1_r.
  apply binary_normalize_canonical; [assumption|].
  set (k := Z.min e eR) in *.
  assert (Hk : k <= e) by (subst k; lia).
  rewrite Z.mul_sub_distr_r.
  rewrite <- pow2_52, <- Z.mul_assoc, <- !Z.pow_add_r by lia.
  replace (52 + (-52 - e + (e - k))) with (- k) by lia.
  lia.
Qed.

Lemma clamp01_below_one (m : positive) (e : Z) :
  e <= -53 -> clamp01 (S754_finite false m e) = S754_finite false m e.
Proof.
  intros He. unfold clamp01, gtb, ltb, SFltb, one. cbn [SFcompare zero].
  destruct (Z.compare_spec (-52) e); try lia. reflexivity.
Qed.

Lemma grid_complement_exists (m : positive) (e : Z) :
  bounded prec emax m e = true -> e <= -53 ->
  Zpos m mod 2 ^ (-53 - e) = 0 ->
  exists mR eR,
    bounded prec emax mR eR = true /\ eR <= -53 /\
    Zpos m * 2 ^ (e - Z.min e eR) + Zpos mR * 2 ^ (eR - Z.min e eR)
    = 2 ^ (- Z.min e eR).
Proof.
  intros Hb He Hmod.
  pose proof (bounded_range _ _ Hb) as (Hr & Hd & _).
  pose proof (digits2_bounds m) as [_ Hhi].
  set (n := -53 - e) in *.
  assert (Hn : 0 <= n) by (subst n; lia).
  pose proof (Zpow_pos n Hn) as Pn.
  apply Z.mod_divide in Hmod; [|lia]. destruct Hmod as [m' Hm'].
  assert (Hm'pos : 0 < m') by nia.
  assert (Hm53 : Zpos m < 2 ^ 53).
  { eapply Z.lt_le_trans; [exact Hhi|]. apply Z.pow_le_mono_r; lia. }
  assert (Hm'53 : m' < 2 ^ 53) by nia.
  set (q := 2 ^ 53 - m').
  assert (Hq : 0 < q < 2 ^ 53) by (subst q; lia).
  destruct q as [|qp|qp] eqn:Eq; try lia.
  pose proof (digits2_bounds qp) as [Qlo Qhi].
  set (dq := Zpos (digits2_pos qp)) in *.
  assert (Hdq : 1 <= dq <= 53).
  { split; [subst dq; lia|].
    destruct (Z.le_gt_cases dq 53) as [|Hgt]; [assumption|exfalso].
    assert (2 ^ 53 <= 2 ^ (dq - 1)) by (apply Z.pow_le_mono_r; lia). lia. }
  pose proof (Zpow_pos (53 - dq)) as Pd.
  assert (HmRpos : 0 < Zpos qp * 2 ^ (53 - dq)) by (apply Z.mul_pos_pos; lia).
  destruct (Zpos qp * 2 ^ (53 - dq)) as [|mR|mR] eqn:EmR; try lia.
  exists mR, (dq - 106).
  assert (HdR : Zpos (digits2_pos mR) = 53).
  { apply digits2_unique. rewrite <- EmR. split.
    - replace (53 - 1) with (dq - 1 + (53 - dq)) by lia.
      rewrite Z.pow_add_r by lia. apply Z.mul_le_mono_nonneg_r; lia.
    - replace 53 with (dq + (53 - dq)) at 2 by lia.
      rewrite Z.pow_add_r by lia. apply Z.mul_lt_mono_pos_r; lia. }
  split; [|split; [lia|]].
  - unfold bounded, canonical_mantissa. rewrite HdR.
    apply andb_true_intro. split.
    + apply Z.eqb_eq. rewrite fexp64_eq. lia.
    + apply Z.leb_le. unfold emax, prec. lia.
  - set (k := Z.min e (dq - 106)).
    assert (Hk : k <= e /\ k <= dq - 106) by (subst k; lia).
    rewrite <- EmR, Hm'.
    rewrite <- !Z.mul_assoc, <- !Z.pow_add_r by lia.
    replace (n + (e - k)) with (-53 - k) by (subst n; lia).
    replace (53 - dq + (dq - 106 - k)) with (-53 - k) by lia.
    rewrite <- Z.mul_add_distr_r.
    replace (m' + Zpos qp) with (2 ^ 53) by lia.
    rewrite <- Z.pow_add_r by lia. f_equal. lia.
Qed.

Lemma complement_round_trip_finite (m : positive) (e : Z) :
  bounded prec emax m e = true -> e <= -53 ->
  Zpos m mod 2 ^ (-53 - e) = 0 ->
  bind (complement (S754_finite false m e)) complement
  = Return (S754_finite false m e).
Proof.
  intros Hb He Hmod.
  destruct (grid_complement_exists m e Hb He Hmod) as (mR & eR & HbR & HeR & Hsum).
  destruct (complement_finite (S754_finite false m e) eq_refl) as [-> _].
  rewrite (sub_one_exact m e mR eR) by (assumption || lia).
  rewrite clamp01_below_one by assumption. cbn [bind].
  destruct (complement_finite (S754_finite false mR eR) eq_refl) as [-> _].
  rewrite (sub_one_exact mR eR m e); [now rewrite clamp01_below_one|lia|assumption|].
  rewrite (Z.min_comm eR e), Z.add_comm. exact Hsum.
Qed.

Lemma leb_one_inv (m : positive) (e : Z) :
  leb (S754_finite false m e) one = true ->
  e < -52 \/ (e = -52 /\ Zpos m <= 4503599627370496).
Proof.
  unfold leb, SFleb, one. cbn [SFcompare].
  destruct (Z.compare_spec e (-52)) as [He|He|He]; intros H;
    [right; split; [assumption|] | left; assumption | discriminate H].
  destruct (Pos.compare_cont Eq m 4503599627370496) eqn:Hc; [| |discriminate H].
  - apply Pos.compare_eq in Hc. rewrite Hc. apply Z.le_refl.
  - apply Z.lt_le_incl. exact Hc.
Qed.

Lemma complement_round_trip (mu : number) :
  valid mu = true -> in_unit mu = true -> on_grid53 mu = true ->
  exists v, bind (complement mu) complement = Return v /\ eqb v mu = true.
Proof.
  intros V U G. destruct mu as [s|s| |s m e]; try discriminate G.
  - exists zero. destruct s; split; vm_compute; reflexivity.
  - unfold in_unit in U. apply andb_prop in U. destruct U as [U0 U1].
    destruct s; [discriminate U0|].
    cbn [valid valid_binary] in V.
    pose proof (bounded_range _ _ V) as (Hr & Hd & Hn).
    pose proof (digits2_bounds m) as [Hlo _].
    destruct (leb_one_inv _ _ U1) as [He|[He Hm]].
    + exists (S754_finite false m e). split.
      * apply complement_round_trip_finite; [assumption|clear - He; lia|].
        cbn [on_grid53] in G. destruct (-53 <=? e) eqn:He53.
        -- apply Z.leb_le in He53. replace (-53 - e) with 0 by (clear - He He53; lia).
           apply Z.mod_1_r.
        -- now apply Z.eqb_eq.
      * apply eqb_refl. reflexivity.
    + subst e. rewrite Hn in Hlo by (clear; lia).
      change (2 ^ (53 - 1)) with 4503599627370496 in Hlo.
      assert (Hm52 : m = 4503599627370496%positive).
      { apply Pos2Z.inj. apply Z.le_antisymm; assumption. }
      subst m. exists one. split; vm_compute; reflexivity.
Qed.

End Binary64.

Import Binary64.

(** * Error messages *)

Lemma prefix_append (s t : string) : prefix s (s ++ t) = true.
Proof.
  induction s as [|ch s IH]; simpl; [destruct t; reflexivity|].
  destruct (ascii_dec ch ch) as [_|Hne]; [exact IH|congruence].
Qed.

Lemma append_assoc (s t u : string) : (s ++ t) ++ u = s ++ (t ++ u).
Proof. induction s as [|ch s IH]; simpl; congruence. Qed.

Lemma finiteness_message_prefix (name label : string) :
  prefix (name ++ ": ")
         (name ++ ": parameter '" ++ label ++ "' must be a finite number.")
  = true.
Proof.
  change (": parameter '" ++ label ++ "' must be a finite number.")
    with (": " ++ ("parameter '" ++ label ++ "' must be a finite number.")).
  rewrite <- append_assoc. apply prefix_append.
Qed.

(** A guarded body throws either the finiteness message of its prologue or,
    with every argument finite, what the body throws. *)
Lemma guarded_throw (name : string) (values : list (string * number))
      (body : completion) (msg : string) :
  guarded (assertFiniteNumbers name values) body = Throw msg ->
  prefix (name ++ ": ") msg = true \/
  (forallb (fun lv => isFinite (snd lv)) values = true /\ body = Throw msg).
Proof.
  destruct (forallb (fun lv => isFinite (snd lv)) values) eqn:Hall.
  - rewrite (assertFiniteNumbers_pass name values Hall). cbn [guarded]. auto.
  - destruct (assertFiniteNumbers_fail name values Hall) as (l & v & _ & _ & ->).
    cbn [guarded]. intros H. injection H as <-. left.
    apply finiteness_message_prefix.
Qed.

(** Closes a goal about the message of a body that is a cascade of tests
    ending in literal throws and returns. *)
Ltac body_message :=
  repeat match goal with
  | H : (if ?c then _ else _) = Throw _ |- _ => destruct c
  | H : (let _ := _ in _) = Throw _ |- _ => cbv zeta in H
  end;
  match goal with
  | H : Return _ = Throw _ |- _ => discriminate H
  | H : Throw _ = Throw _ |- _ => injection H as <-; reflexivity
  end.

Lemma triangular_message (x a b c : number) (msg : string) :
  triangular x a b c = Throw msg -> prefix "triangular: " msg = true.
Proof.
  intros H. apply guarded_throw in H. destruct H as [H|[_ H]]; [exact H|].
  body_message.
Qed.

Lemma trapezoidal_message (x a b c d : number) (msg : string) :
  trapezoidal x a b c d = Throw msg -> prefix "trapezoidal: " msg = true.
Proof.
  intros H. apply guarded_throw in H. destruct H as [H|[_ H]]; [exact H|].
  body_message.
Qed.

Lemma gaussian_message (Math_exp : number -> number) (x mu sigma : number)
      (msg : string) :
  gaussian Math_exp x mu sigma = Throw msg -> prefix "gaussian: " msg = true.
Proof.
  intros H. apply guarded_throw in H. destruct H as [H|[_ H]]; [exact H|].
  body_message.
Qed.

Lemma generalizedBell_message (Math_pow : number -> number -> number)
      (x a b c : number) (msg : string) :
  generalizedBell Math_pow x a b c = Throw msg ->
  prefix "generalizedBell: " msg = true.
Proof.
  intros H. apply guarded_throw in H. destruct H as [H|[_ H]]; [exact H|].
  body_message.
Qed.

Lemma sigmoid_message (Math_exp : number -> number) (x a c : number)
      (msg : string) :
  sigmoid Math_exp x a c = Throw msg -> prefix "sigmoid: " msg = true.
Proof.
  intros H. apply guarded_throw in H. destruct H as [H|[_ H]]; [exact H|].
  body_message.
Qed.

Lemma sCurve_message (x a b : number) (msg : string) :
  sCurve x a b = Throw msg -> prefix "sCurve: " msg = true.
Proof.
  intros H. apply guarded_throw in H. destruct H as [H|[_ H]]; [exact H|].
  body_message.
Qed.

Lemma zCurve_message (x a b : number) (msg : string) :
  zCurve x a b = Throw msg -> prefix "zCurve: " msg = true.
Proof.
  intros H. apply guarded_throw in H. destruct H as [H|[_ H]]; [exact H|].
  body_message.
Qed.

Lemma singleton_message (x c : number) (msg : string) :
  singleton x c = Throw msg -> prefix "singleton: " msg = true.
Proof.
  intros H. apply guarded_throw in H. destruct H as [H|[_ H]]; [exact H|].
  body_message.
Qed.

Lemma piCurve_message (x a b c d : number) (msg : string) :
  piCurve x a b c d = Throw msg -> prefix "piCurve: " msg = true.
Proof.
  intros H. pose proof H as H0.
  apply guarded_throw in H. destruct H as [H|[Hfin H]]; [exact H|].
  cbn [forallb snd] in Hfin.
  repeat (apply andb_prop in Hfin; let F := fresh "F" in destruct Hfin as [F Hfin]).
  destruct ((a <=? b) && (b <=? c) && (c <=? d))%num eqn:Hord; cbn [negb] in H.
  - exfalso. apply andb_prop in Hord. destruct Hord as [Hord Hcd].
    apply andb_prop in Hord. destruct Hord as [Hab Hbc].
    pose proof (piCurve_returns x a b c d F F0 F1 F2 F3 Hab Hbc Hcd) as Hret.
    rewrite H0 in Hret. discriminate Hret.
  - injection H as <-. reflexivity.
Qed.

(** * Ramps and their denominators *)

Section Ramps.

Local Open Scope num_scope.

Variables x a b c d : number.
Hypothesis Fx : isFinite x = true.
Hypothesis Fa : isFinite a = true.
Hypothesis Fb : isFinite b = true.
Hypothesis Fc : isFinite c = true.
Hypothesis Fd : isFinite d = true.

(** The denominator of a ramp whose branch runs is a non-zero number, so the
    right operand of [||] is not taken. *)
Lemma ramp_denominator (lo mid hi : number) :
  valid lo = true -> valid hi = true ->
  isFinite lo = true -> isFinite hi = true ->
  (lo <? mid) = true -> (mid <? hi) = true ->
  (hi - lo) ||| EPSILON = hi - lo.
Proof.
  intros Vlo Vhi Flo Fhi H1 H2. unfold or_else.
  rewrite (sub_truthy lo hi Vlo Vhi Flo Fhi (ltb_trans lo mid hi H1 H2)).
  reflexivity.
Qed.

Lemma eqb_true_leb (u v : number) :
  (u === v) = true -> (u <=? v) = true /\ (v <=? u) = true.
Proof. rewrite eqb_leb_leb. apply andb_prop. Qed.

Lemma triangular_left_step :
  (a <=? b) = true -> (b <=? c) = true ->
  (a === b) = true -> (x <=? b) = true ->
  triangular x a b c = Return zero.
Proof.
  intros Hab Hbc Heq Hxb. apply eqb_true_leb in Heq. destruct Heq as [_ Hba].
  unfold triangular. step_prologue. branch; reflexivity.
Qed.

Lemma triangular_right_step :
  (a <=? b) = true -> (b <=? c) = true ->
  (b === c) = true -> (b <=? x) = true ->
  triangular x a b c = Return zero.
Proof.
  intros Hab Hbc Heq Hbx. apply eqb_true_leb in Heq. destruct Heq as [_ Hcb].
  unfold triangular. step_prologue. branch; reflexivity.
Qed.

Lemma triangular_point :
  (a === b) = true -> (b === c) = true ->
  triangular x a b c = Return zero.
Proof.
  intros H1 H2. apply eqb_true_leb in H1, H2.
  destruct H1 as [Hab Hba], H2 as [Hbc Hcb].
  unfold triangular. step_prologue. branch; reflexivity.
Qed.

Lemma trapezoidal_left_step :
  (a <=? b) = true -> (b <=? c) = true -> (c <=? d) = true ->
  (a === b) = true -> (x <=? c) = true ->
  trapezoidal x a b c d = Return zero \/ trapezoidal x a b c d = Return one.
Proof.
  intros Hab Hbc Hcd Heq Hxc. apply eqb_true_leb in Heq. destruct Heq as [_ Hba].
  assert (E : trapezoidal x a b c d
              = Return (if (a <? x) && (x <? d) then one else zero)).
  { unfold trapezoidal. step_prologue. branch; try reflexivity.
    all: destruct (a <? x) eqn:?; destruct (x <? d) eqn:?; try reflexivity;
      num_order. }
  rewrite E. destruct ((a <? x) && (x <? d)); auto.
Qed.

Lemma trapezoidal_right_step :
  (a <=? b) = true -> (b <=? c) = true -> (c <=? d) = true ->
  (c === d) = true -> (b <=? x) = true ->
  trapezoidal x a b c d = Return zero \/ trapezoidal x a b c d = Return one.
Proof.
  intros Hab Hbc Hcd Heq Hbx. apply eqb_true_leb in Heq. destruct Heq as [_ Hdc].
  assert (E : trapezoidal x a b c d
              = Return (if (a <? x) && (x <? d) then one else zero)).
  { unfold trapezoidal. step_prologue. branch; try reflexivity.
    all: destruct (a <? x) eqn:?; destruct (x <? d) eqn:?; try reflexivity;
      num_order. }
  rewrite E. destruct ((a <? x) && (x <? d)); auto.
Qed.

Lemma trapezoidal_box :
  (a <=? b) = true -> (b <=? c) = true -> (c <=? d) = true ->
  (a === b) = true -> (c === d) = true ->
  trapezoidal x a b c d = Return zero \/ trapezoidal x a b c d = Return one.
Proof.
  intros Hab Hbc Hcd H1 H2. apply eqb_true_leb in H1, H2.
  destruct H1 as [_ Hba], H2 as [_ Hdc].
  assert (E : trapezoidal x a b c d
              = Return (if (a <? x) && (x <? d) then one else zero)).
  { unfold trapezoidal. step_prologue. branch; try reflexivity.
    all: destruct (a <? x) eqn:?; destruct (x <? d) eqn:?; try reflexivity;
      num_order. }
  rewrite E. destruct ((a <? x) && (x <? d)); auto.
Qed.

(** With a strictly ordered pair, [sCurve] and [zCurve] return. *)
Lemma sCurve_returns :
  (a <? b) = true -> throws (sCurve x a b) = false.
Proof.
  intros Hab. unfold sCurve. step_prologue. rewrite Hab. cbn [negb].
  destruct (x <=? a); [reflexivity|]. destruct (x >=? b); [reflexivity|].
  cbv zeta. destruct (_ <=? half); reflexivity.
Qed.

Lemma zCurve_returns :
  (a <? b) = true -> throws (zCurve x a b) = false.
Proof.
  intros Hab. unfold zCurve. step_prologue. rewrite Hab. cbn [negb].
  destruct (x <=? a); [reflexivity|]. destruct (x >=? b); [reflexivity|].
  cbv zeta. destruct (_ <=? half); reflexivity.
Qed.

End Ramps.

(** * The specified properties *)

Local Open Scope num_scope.

(** C1.  The value of a catalogue function lies in [0,1]: this fails on the
    code.  At the finite arguments x = 2^1023, a = -1.5 * 2^1023 and
    b = 1.5 * 2^1023 the differences x - a and b - a both overflow to
    Infinity, their quotient is NaN, and sCurve, zCurve, the two shoulders,
    triangular, trapezoidal and piCurve return NaN, which is not in [0,1]. *)
Theorem unit_interval_fails_on_overflow :
  let x := of_Z2 1 1023 in
  let a := of_Z2 (-3) 1022 in
  let b := of_Z2 3 1022 in
  isFinite x = true /\ isFinite a = true /\ isFinite b = true /\
  (a <? b) = true /\
  sCurve x a b = Return NaN /\
  zCurve x a b = Return NaN /\
  rightShoulder x a b = Return NaN /\
  leftShoulder x a b = Return NaN /\
  triangular x a b b = Return NaN /\
  trapezoidal x a b b b = Return NaN /\
  piCurve x a b b b = Return NaN /\
  in_unit NaN = false.
Proof. vm_compute. repeat split. Qed.

(** C2, as the code has it.  For finite a <= b <= c <= d and finite x,
    piCurve is the delegated sCurve call on (a,b), the delegated zCurve call
    on (c,d), 0 for x <= a and for x >= d, and on the plateau [b,c] it is 1
    only strictly inside (a,d): at x = a = b and at x = c = d the boundary
    test comes first and returns 0. *)
Theorem piCurve_piecewise (x a b c d : number) :
  isFinite x = true -> isFinite a = true -> isFinite b = true ->
  isFinite c = true -> isFinite d = true ->
  (a <=? b) = true -> (b <=? c) = true -> (c <=? d) = true ->
  ((a <? x) = true -> (x <? b) = true -> piCurve x a b c d = sCurve x a b) /\
  ((c <? x) = true -> (x <? d) = true -> piCurve x a b c d = zCurve x c d) /\
  ((b <=? x) = true -> (x <=? c) = true ->
   piCurve x a b c d = Return (if (a <? x) && (x <? d) then one else zero)) /\
  ((x <=? a) || (d <=? x) = true -> piCurve x a b c d = Return zero).
Proof.
  intros Fx Fa Fb Fc Fd Hab Hbc Hcd. repeat split; intros.
  - now apply piCurve_rising.
  - now apply piCurve_falling.
  - now apply piCurve_plateau.
  - now apply piCurve_outside.
Qed.

Lemma piCurve_piecewise_witness :
  piCurve (of_Z 5) (of_Z 0) (of_Z 2) (of_Z 8) (of_Z 10) = Return one /\
  piCurve (of_Z 0) (of_Z 0) (of_Z 0) (of_Z 8) (of_Z 10) = Return zero.
Proof.
  split.
  - exact (proj1 (proj2 (proj2
      (piCurve_piecewise (of_Z 5) (of_Z 0) (of_Z 2) (of_Z 8) (of_Z 10)
         eq_refl eq_refl eq_refl eq_refl eq_refl eq_refl eq_refl eq_refl)))
      eq_refl eq_refl).
  - exact (proj1 (proj2 (proj2
      (piCurve_piecewise (of_Z 0) (of_Z 0) (of_Z 0) (of_Z 8) (of_Z 10)
         eq_refl eq_refl eq_refl eq_refl eq_refl eq_refl eq_refl eq_refl)))
      eq_refl eq_refl).
Defined.

(** C2 as stated fails: x = 0 lies in [b,c] = [0,8] of the valid
    parameters (0,0,8,10), and piCurve returns 0 there, not 1. *)
Lemma piCurve_plateau_edge :
  let x := of_Z 0 in
  let a := of_Z 0 in let b := of_Z 0 in let c := of_Z 8 in let d := of_Z 10 in
  (a <=? b) && (b <=? c) && (c <=? d) = true /\
  (b <=? x) && (x <=? c) = true /\
  piCurve x a b c d = Return zero /\
  piCurve x a b c d <> Return one.
Proof. vm_compute. repeat split. discriminate. Qed.

(** C3, as the code has it.  For finite a <= b <= c, triangular(b,a,b,c)
    is exactly 1 when a < b < c; when a = b or b = c the boundary test
    x <= a || x >= c comes first and the result is exactly 0. *)
Theorem triangular_peak (a b c : number) :
  isFinite a = true -> isFinite b = true -> isFinite c = true ->
  (a <=? b) = true -> (b <=? c) = true ->
  triangular b a b c = Return (if (a <? b) && (b <? c) then one else zero).
Proof. intros. now apply triangular_at_peak. Qed.

Lemma triangular_peak_witness :
  triangular (of_Z 5) (of_Z 0) (of_Z 5) (of_Z 10) = Return one.
Proof.
  exact (triangular_peak (of_Z 0) (of_Z 5) (of_Z 10)
           eq_refl eq_refl eq_refl eq_refl eq_refl).
Defined.

(** C3 as stated fails: (a,b,c) = (5,5,10) is valid and triangular(5,5,5,10)
    is 0. *)
Lemma triangular_peak_on_foot :
  let a := of_Z 5 in let b := of_Z 5 in let c := of_Z 10 in
  (a <=? b) && (b <=? c) = true /\
  triangular b a b c = Return zero /\
  triangular b a b c <> Return one.
Proof. vm_compute. repeat split. discriminate. Qed.

(** C4, as the code has it.  For finite a <= b <= c <= d and x in [b,c],
    trapezoidal(x,a,b,c,d) is exactly 1 when a < x < d, and exactly 0 at
    x = a = b and at x = c = d, where the boundary test comes first. *)
Theorem trapezoidal_plateau (x a b c d : number) :
  isFinite x = true -> isFinite a = true -> isFinite b = true ->
  isFinite c = true -> isFinite d = true ->
  (a <=? b) = true -> (b <=? c) = true -> (c <=? d) = true ->
  (b <=? x) = true -> (x <=? c) = true ->
  trapezoidal x a b c d = Return (if (a <? x) && (x <? d) then one else zero).
Proof. intros. now apply trapezoidal_on_plateau. Qed.

Lemma trapezoidal_plateau_witness :
  trapezoidal (of_Z 5) (of_Z 0) (of_Z 2) (of_Z 8) (of_Z 10) = Return one.
Proof.
  exact (trapezoidal_plateau (of_Z 5) (of_Z 0) (of_Z 2) (of_Z 8) (of_Z 10)
           eq_refl eq_refl eq_refl eq_refl eq_refl
           eq_refl eq_refl eq_refl eq_refl eq_refl).
Defined.

(** C4 as stated fails: x = 0 lies in [b,c] = [0,8] of the valid parameters
    (0,0,8,10), and trapezoidal returns 0 there. *)
Lemma trapezoidal_plateau_edge :
  let x := of_Z 0 in
  let a := of_Z 0 in let b := of_Z 0 in let c := of_Z 8 in let d := of_Z 10 in
  (a <=? b) && (b <=? c) && (c <=? d) = true /\
  (b <=? x) && (x <=? c) = true /\
  trapezoidal x a b c d = Return zero /\
  trapezoidal x a b c d <> Return one.
Proof. vm_compute. repeat split. discriminate. Qed.

(** C5.  sCurve + zCurve = 1: this fails on the code at the arguments of
    C1, where both curves return NaN and NaN + NaN is not 1. *)
Theorem complementary_curves_fail_on_overflow :
  let x := of_Z2 1 1023 in
  let a := of_Z2 (-3) 1022 in
  let b := of_Z2 3 1022 in
  isFinite x = true /\ isFinite a = true /\ isFinite b = true /\
  (a <? b) = true /\
  exists s z,
    sCurve x a b = Return s /\ zCurve x a b = Return z /\
    (s + z === one) = false.
Proof.
  cbv zeta. repeat split. exists NaN, NaN. vm_compute. repeat split.
Qed.

(** C6, as the code has it.  For every finite mu, complement(mu) does not
    throw and returns 1 - mu clamped to [0,1]: exactly 0 when mu > 1 and
    exactly 1 when mu < 0.  The round trip complement(complement(mu)) = mu
    holds for the mu in [0,1] that are integer multiples of 2^-53 (every mu
    in [1/2,1] and mu = 0 among them), where 1 - mu is computed without
    rounding. *)
Theorem complement_clamps_and_round_trips (mu : number) :
  valid mu = true -> isFinite mu = true ->
  complement mu = Return (clamp01 (one - mu)) /\
  in_unit (clamp01 (one - mu)) = true /\
  ((one <? mu) = true -> complement mu = Return zero) /\
  ((mu <? zero) = true -> complement mu = Return one) /\
  (in_unit mu = true -> on_grid53 mu = true ->
   exists v, bind (complement mu) complement = Return v /\ (v === mu) = true).
Proof.
  intros V F. destruct (complement_finite mu F) as [H1 H2].
  repeat split; try assumption; intros.
  - now apply complement_above.
  - now apply complement_below.
  - now apply complement_round_trip.
Qed.

Lemma complement_clamps_and_round_trips_witness :
  complement (of_Z 3) = Return zero /\
  complement (of_Z (-2)) = Return one /\
  exists v, bind (complement (of_Z2 3 (-2))) complement = Return v /\
            (v === of_Z2 3 (-2)) = true.
Proof.
  split; [|split].
  - exact (proj1 (proj2 (proj2
      (complement_clamps_and_round_trips (of_Z 3) eq_refl eq_refl))) eq_refl).
  - exact (proj1 (proj2 (proj2 (proj2
      (complement_clamps_and_round_trips (of_Z (-2)) eq_refl eq_refl))))
      eq_refl).
  - exact (proj2 (proj2 (proj2 (proj2
      (complement_clamps_and_round_trips (of_Z2 3 (-2)) eq_refl eq_refl))))
      eq_refl eq_refl).
Defined.

(** C6 as stated fails: mu = 2^-60 lies in [0,1]; 1 - mu rounds to 1 and
    complement(complement(mu)) is 0, not mu. *)
Lemma complement_round_trip_rounds :
  let mu := of_Z2 1 (-60) in
  valid mu = true /\ in_unit mu = true /\
  bind (complement mu) complement = Return zero /\
  (zero === mu) = false.
Proof. vm_compute. repeat split. Qed.

(** C7.  Every catalogue function throws on invalid parameters, and the
    finiteness check fires first: with a non-finite argument the error is
    the finiteness message of the first such argument, whatever the shape
    constraint; with finite arguments violating the constraint the error is
    the "require" message.  triangular(5,3,2,1) throws for the ordering,
    gaussian(0,0,0) for sigma > 0, and gaussian(0,0,NaN) throws the
    finiteness error. *)
Theorem invalid_parameters_throw
    (Math_exp : number -> number) (Math_pow : number -> number -> number) :
  (forall i : Invocation,
     all_finite i = false ->
     exists label v,
       In (label, v) (arguments i) /\ isFinite v = false /\
       run Math_exp Math_pow i
       = Throw (reporting_name i ++ ": parameter '" ++ label
                ++ "' must be a finite number.")) /\
  (forall i : Invocation,
     all_finite i = true -> constraint i = false ->
     exists what,
       run Math_exp Math_pow i = Throw (reporting_name i ++ ": require " ++ what)) /\
  triangular (of_Z 5) (of_Z 3) (of_Z 2) (of_Z 1)
  = Throw "triangular: require a <= b <= c" /\
  gaussian Math_exp zero zero zero = Throw "gaussian: require sigma > 0" /\
  gaussian Math_exp zero zero NaN
  = Throw "gaussian: parameter 'sigma' must be a finite number.".
Proof.
  split; [|split; [|repeat split]].
  - intros i Hall. unfold all_finite in Hall.
    destruct (assertFiniteNumbers_fail (reporting_name i) (arguments i) Hall)
      as (label & v & Hin & Hv & Hmsg).
    exists label, v. split; [assumption|split; [assumption|]].
    destruct i; cbn [run reporting_name invoked_name arguments] in *;
      unfold leftShoulder, rightShoulder;
      match goal with
      | |- ?f = _ =>
          let h := eval hnf in f in change f with h
      end;
      rewrite Hmsg; reflexivity.
  - intros i Hall Hc. unfold all_finite in Hall.
    pose proof (assertFiniteNumbers_pass (reporting_name i) (arguments i) Hall)
      as Hpass.
    destruct i; cbn [run reporting_name invoked_name arguments constraint] in *;
      try discriminate Hc;
      unfold leftShoulder, rightShoulder,
        triangular, trapezoidal, gaussian, generalizedBell, sCurve, zCurve,
        piCurve;
      rewrite Hpass; cbn [guarded]; unfold gtb in *.
    + rewrite Hc. eexists; reflexivity.
    + rewrite Hc. eexists; reflexivity.
    + rewrite Hc. eexists; reflexivity.
    + destruct (a === zero); [eexists; reflexivity|].
      cbn [negb andb] in Hc. rewrite Hc. eexists; reflexivity.
    + rewrite Hc. eexists; reflexivity.
    + rewrite Hc. eexists; reflexivity.
    + rewrite Hc. eexists; reflexivity.
    + rewrite Hc. eexists; reflexivity.
    + rewrite Hc. eexists; reflexivity.
Qed.

Lemma invalid_parameters_throw_witness :
  exists what,
    run (fun v => v) (fun v _ => v)
        (Triangular (of_Z 5) (of_Z 3) (of_Z 2) (of_Z 1))
    = Throw ("triangular" ++ ": require " ++ what).
Proof.
  exact (proj1 (proj2 (invalid_parameters_throw (fun v => v) (fun v _ => v)))
           (Triangular (of_Z 5) (of_Z 3) (of_Z 2) (of_Z 1)) eq_refl eq_refl).
Defined.

(** C8, as the code has it.  Every error a catalogue function raises has a
    message of the form "<name>: <description>", where <name> is the invoked
    function for every function that validates its own arguments; the two
    aliases validate nothing themselves, so an error of leftShoulder carries
    the name zCurve and an error of rightShoulder the name sCurve. *)
Theorem error_message_names_the_validator
    (Math_exp : number -> number) (Math_pow : number -> number -> number)
    (i : Invocation) (msg : string) :
  run Math_exp Math_pow i = Throw msg ->
  (is_alias i = false -> prefix (invoked_name i ++ ": ") msg = true) /\
  (forall x a b, i = LeftShoulder x a b -> prefix "zCurve: " msg = true) /\
  (forall x a b, i = RightShoulder x a b -> prefix "sCurve: " msg = true).
Proof.
  intros H. repeat split.
  - intros Hal. destruct i; cbn [run invoked_name is_alias] in *;
      try discriminate Hal.
    + now apply triangular_message in H.
    + now apply trapezoidal_message in H.
    + now apply gaussian_message in H.
    + now apply generalizedBell_message in H.
    + now apply sigmoid_message in H.
    + now apply sCurve_message in H.
    + now apply zCurve_message in H.
    + now apply piCurve_message in H.
    + now apply singleton_message in H.
  - intros x a b ->. cbn [run] in H. now apply zCurve_message in H.
  - intros x a b ->. cbn [run] in H. now apply sCurve_message in H.
Qed.

Lemma error_message_names_the_validator_witness :
  prefix "triangular: " "triangular: require a <= b <= c" = true.
Proof.
  exact (proj1 (error_message_names_the_validator (fun v => v) (fun v _ => v)
                  (Triangular (of_Z 5) (of_Z 3) (of_Z 2) (of_Z 1))
                  "triangular: require a <= b <= c" eq_refl) eq_refl).
Defined.

(** C8 as stated fails: leftShoulder(0,1,0) violates a < b and the error it
    raises names zCurve, not leftShoulder. *)
Lemma leftShoulder_error_names_zCurve :
  leftShoulder (of_Z 0) (of_Z 1) (of_Z 0) = Throw "zCurve: require a < b" /\
  prefix "leftShoulder: " "zCurve: require a < b" = false /\
  rightShoulder (of_Z 0) (of_Z 1) (of_Z 0) = Throw "sCurve: require a < b" /\
  prefix "rightShoulder: " "sCurve: require a < b" = false.
Proof. vm_compute. repeat split. Qed.

(** C9.  For finite a <= b <= c <= d and finite x, piCurve never throws:
    the branch that calls sCurve(x,a,b) runs only when a < x < b, hence
    a < b, and the branch that calls zCurve(x,c,d) only when c < x < d,
    hence c < d, so neither delegated call throws. *)
Theorem piCurve_never_throws (x a b c d : number) :
  isFinite x = true -> isFinite a = true -> isFinite b = true ->
  isFinite c = true -> isFinite d = true ->
  (a <=? b) = true -> (b <=? c) = true -> (c <=? d) = true ->
  throws (piCurve x a b c d) = false /\
  ((x >? a) && (x <? b) = true ->
   (a <? b) = true /\ throws (sCurve x a b) = false) /\
  ((x >? c) && (x <? d) = true ->
   (c <? d) = true /\ throws (zCurve x c d) = false).
Proof.
  intros Fx Fa Fb Fc Fd Hab Hbc Hcd. split; [|split].
  - now apply piCurve_returns.
  - intros H. apply andb_prop in H. destruct H as [H1 H2]. unfold gtb in H1.
    pose proof (ltb_trans a x b H1 H2) as Hlt.
    split; [assumption|]. now apply sCurve_returns.
  - intros H. apply andb_prop in H. destruct H as [H1 H2]. unfold gtb in H1.
    pose proof (ltb_trans c x d H1 H2) as Hlt.
    split; [assumption|]. now apply zCurve_returns.
Qed.

Lemma piCurve_never_throws_witness :
  throws (piCurve (of_Z 5) (of_Z 0) (of_Z 0) (of_Z 10) (of_Z 10)) = false.
Proof.
  exact (proj1 (piCurve_never_throws (of_Z 5) (of_Z 0) (of_Z 0) (of_Z 10)
                  (of_Z 10) eq_refl eq_refl eq_refl eq_refl eq_refl
                  eq_refl eq_refl eq_refl)).
Defined.

(** On a ramp the functions divide by the plain width: with the strict
    inequalities of the branch the width is a non-zero number and the
    right operand of [||] plays no part in the value. *)
Lemma triangular_rising_ramp (x a b c : number) :
  valid a = true -> valid b = true ->
  isFinite x = true -> isFinite a = true -> isFinite b = true ->
  isFinite c = true ->
  (a <=? b) = true -> (b <=? c) = true ->
  (x >? a) && (x <? b) = true ->
  triangular x a b c = Return (clamp01 ((x - a) / (b - a))).
Proof.
  intros Va Vb Fx Fa Fb Fc Hab Hbc H. apply andb_prop in H.
  destruct H as [H1 H2]. unfold gtb in H1.
  unfold triangular. rewrite (ramp_denominator a x b Va Vb Fa Fb H1 H2).
  step_prologue. branch; reflexivity.
Qed.

Lemma triangular_falling_ramp (x a b c : number) :
  valid b = true -> valid c = true ->
  isFinite x = true -> isFinite a = true -> isFinite b = true ->
  isFinite c = true ->
  (a <=? b) = true -> (b <=? c) = true ->
  (x >? b) && (x <? c) = true ->
  triangular x a b c = Return (clamp01 ((c - x) / (c - b))).
Proof.
  intros Vb Vc Fx Fa Fb Fc Hab Hbc H. apply andb_prop in H.
  destruct H as [H1 H2]. unfold gtb in H1.
  unfold triangular. rewrite (ramp_denominator b x c Vb Vc Fb Fc H1 H2).
  step_prologue. branch; reflexivity.
Qed.

Lemma trapezoidal_rising_ramp (x a b c d : number) :
  valid a = true -> valid b = true ->
  isFinite x = true -> isFinite a = true -> isFinite b = true ->
  isFinite c = true -> isFinite d = true ->
  (a <=? b) = true -> (b <=? c) = true -> (c <=? d) = true ->
  (x >? a) && (x <? b) = true ->
  trapezoidal x a b c d = Return (clamp01 ((x - a) / (b - a))).
Proof.
  intros Va Vb Fx Fa Fb Fc Fd Hab Hbc Hcd H. apply andb_prop in H.
  destruct H as [H1 H2]. unfold gtb in H1.
  unfold trapezoidal. rewrite (ramp_denominator a x b Va Vb Fa Fb H1 H2).
  step_prologue. branch; reflexivity.
Qed.

Lemma trapezoidal_falling_ramp (x a b c d : number) :
  valid c = true -> valid d = true ->
  isFinite x = true -> isFinite a = true -> isFinite b = true ->
  isFinite c = true -> isFinite d = true ->
  (a <=? b) = true -> (b <=? c) = true -> (c <=? d) = true ->
  (x >? c) && (x <? d) = true ->
  trapezoidal x a b c d = Return (clamp01 ((d - x) / (d - c))).
Proof.
  intros Vc Vd Fx Fa Fb Fc Fd Hab Hbc Hcd H. apply andb_prop in H.
  destruct H as [H1 H2]. unfold gtb in H1.
  unfold trapezoidal. rewrite (ramp_denominator c x d Vc Vd Fc Fd H1 H2).
  step_prologue. branch; reflexivity.
Qed.

(** C10, as the code has it.  For valid parameters and finite x, a
    zero-width ramp is an exact step on its own side: triangular with a = b
    returns 0 for every x <= b, with b = c it returns 0 for every x >= b,
    and with a = b = c it returns 0 everywhere; trapezoidal with a = b
    returns exactly 0 or 1 for every x <= c, with c = d for every x >= b,
    and with both for every x.  The other ramp of a half-degenerate shape
    still takes intermediate values.  A ramp branch runs only under its
    strict inequalities, its width is then a non-zero number, and the
    Number.EPSILON fallback is unreachable: on a ramp triangular and
    trapezoidal return the clamped quotient by the plain width b - a,
    c - b or d - c. *)
Theorem degenerate_ramps_are_steps (x a b c d : number) :
  valid a = true -> valid b = true -> valid c = true -> valid d = true ->
  isFinite x = true -> isFinite a = true -> isFinite b = true ->
  isFinite c = true -> isFinite d = true ->
  (a <=? b) = true -> (b <=? c) = true -> (c <=? d) = true ->
  ((a === b) = true -> (x <=? b) = true -> triangular x a b c = Return zero) /\
  ((b === c) = true -> (b <=? x) = true -> triangular x a b c = Return zero) /\
  ((a === b) = true -> (b === c) = true -> triangular x a b c = Return zero) /\
  ((a === b) = true -> (x <=? c) = true ->
   trapezoidal x a b c d = Return zero \/ trapezoidal x a b c d = Return one) /\
  ((c === d) = true -> (b <=? x) = true ->
   trapezoidal x a b c d = Return zero \/ trapezoidal x a b c d = Return one) /\
  ((a === b) = true -> (c === d) = true ->
   trapezoidal x a b c d = Return zero \/ trapezoidal x a b c d = Return one) /\
  ((x >? a) && (x <? b) = true ->
   triangular x a b c = Return (clamp01 ((x - a) / (b - a))) /\
   trapezoidal x a b c d = Return (clamp01 ((x - a) / (b - a)))) /\
  ((x >? b) && (x <? c) = true ->
   triangular x a b c = Return (clamp01 ((c - x) / (c - b)))) /\
  ((x >? c) && (x <? d) = true ->
   trapezoidal x a b c d = Return (clamp01 ((d - x) / (d - c)))).
Proof.
  intros Va Vb Vc Vd Fx Fa Fb Fc Fd Hab Hbc Hcd.
  repeat match goal with |- _ /\ _ => split end; intros.
  - now apply triangular_left_step.
  - now apply triangular_right_step.
  - now apply triangular_point.
  - now apply trapezoidal_left_step.
  - now apply trapezoidal_right_step.
  - now apply trapezoidal_box.
  - split; [now apply triangular_rising_ramp|now apply trapezoidal_rising_ramp].
  - now apply triangular_falling_ramp.
  - now apply trapezoidal_falling_ramp.
Qed.

Lemma degenerate_ramps_are_steps_witness :
  triangular (of_Z 3) (of_Z 5) (of_Z 5) (of_Z 10) = Return zero /\
  triangular (of_Z 7) (of_Z 0) (of_Z 5) (of_Z 10)
  = Return (clamp01 ((of_Z 10 - of_Z 7) / (of_Z 10 - of_Z 5))) /\
  trapezoidal (of_Z 1) (of_Z 0) (of_Z 5) (of_Z 10) (of_Z 10)
  = Return (clamp01 ((of_Z 1 - of_Z 0) / (of_Z 5 - of_Z 0))).
Proof.
  split; [|split].
  - exact (proj1 (degenerate_ramps_are_steps (of_Z 3) (of_Z 5) (of_Z 5)
                    (of_Z 10) (of_Z 10) eq_refl eq_refl eq_refl eq_refl
                    eq_refl eq_refl eq_refl eq_refl eq_refl eq_refl eq_refl
                    eq_refl) eq_refl eq_refl).
  - exact (proj1 (proj2 (proj2 (proj2 (proj2 (proj2 (proj2 (proj2
      (degenerate_ramps_are_steps (of_Z 7) (of_Z 0) (of_Z 5) (of_Z 10)
         (of_Z 10) eq_refl eq_refl eq_refl eq_refl eq_refl eq_refl
         eq_refl eq_refl eq_refl eq_refl eq_refl eq_refl)))))))) eq_refl).
  - exact (proj2 (proj1 (proj2 (proj2 (proj2 (proj2 (proj2 (proj2
      (degenerate_ramps_are_steps (of_Z 1) (of_Z 0) (of_Z 5) (of_Z 10)
         (of_Z 10) eq_refl eq_refl eq_refl eq_refl eq_refl eq_refl
         eq_refl eq_refl eq_refl eq_refl eq_refl eq_refl))))))) eq_refl)).
Defined.

(** C10 as stated fails: (a,b,c) = (5,5,10) is a valid triangle with a
    zero-width left ramp, and triangular(7.5,5,5,10) is 0.5, neither 0
    nor 1. *)
Lemma degenerate_triangle_still_ramps :
  let x := of_Z2 15 (-1) in
  let a := of_Z 5 in let b := of_Z 5 in let c := of_Z 10 in
  (a <=? b) && (b <=? c) = true /\ (a === b) = true /\
  triangular x a b c = Return half /\
  (half === zero) = false /\ (half === one) = false.
Proof. vm_compute. repeat split. Qed.

(** * Arithmetic that adds no NaN *)

Module NoNaN.

Local Open Scope Z_scope.

Lemma sub_not_nan (u w : number) :
  isNaN u = false -> isNaN w = false ->
  isFinite u || isFinite w = true -> isNaN (sub u w) = false.
Proof.
  destruct u as [su|su| |su mu eu], w as [sw|sw| |sw mw ew];
    try discriminate; intros _ _ H; try discriminate H; try reflexivity.
  - destruct su, sw; reflexivity.
  - fold (sub (S754_finite su mu eu) (S754_finite sw mw ew)).
    rewrite sub_finite. apply binary_normalize_not_nan.
Qed.

Lemma add_not_nan (u w : number) :
  isNaN u = false -> isNaN w = false ->
  isFinite u || isFinite w = true -> isNaN (add u w) = false.
Proof.
  destruct u as [su|su| |su mu eu], w as [sw|sw| |sw mw ew];
    try discriminate; intros _ _ H; try discriminate H; try reflexivity.
  - destruct su, sw; reflexivity.
  - unfold add, SFadd. apply binary_normalize_not_nan.
Qed.

(** A product is NaN only through an operand that is NaN or through
    infinity times zero. *)
Lemma mul_not_nan (u w : number) :
  isNaN u = false -> isNaN w = false ->
  (isFinite u && isFinite w) || (truthy u && truthy w) = true ->
  isNaN (mul u w) = false.
Proof.
  destruct u as [su|su| |su mu eu], w as [sw|sw| |sw mw ew];
    try discriminate; intros _ _ H; try discriminate H; try reflexivity.
  unfold mul, SFmul. apply binary_round_aux_not_nan. lia.
Qed.

(** [k * t * t] for a finite non-zero constant [k]. *)
Lemma scaled_square_not_nan (k t : number) :
  isFinite k = true -> truthy k = true -> isNaN t = false ->
  isNaN (mul (mul k t) t) = false.
Proof.
  intros Fk Tk Nt.
  destruct k as [sk|sk| |sk mk ek]; try discriminate.
  destruct t as [st|st| |st mt et]; try discriminate; try reflexivity.
  apply mul_not_nan; [|reflexivity|].
  - apply mul_not_nan; reflexivity.
  - assert (N : isNaN (mul (S754_finite sk mk ek) (S754_finite st mt et)) = false)
      by (apply mul_not_nan; reflexivity).
    destruct (mul (S754_finite sk mk ek) (S754_finite st mt et));
      try discriminate N; reflexivity.
Qed.

Lemma div_eucl_quotient_nonneg (n m : Z) :
  0 <= n -> 0 < m -> 0 <= fst (Z.div_eucl n m).
Proof.
  intros Hn Hm. change (fst (Z.div_eucl n m)) with (n / m).
  apply Z.div_pos; assumption.
Qed.

(** A quotient is NaN only through an operand that is NaN, through 0/0 or
    through infinity over infinity. *)
Lemma div_not_nan (u w : number) :
  isNaN u = false -> isNaN w = false ->
  (isFinite w && truthy w) || (isFinite u && truthy u) = true ->
  isNaN (div u w) = false.
Proof.
  destruct u as [su|su| |su mu eu], w as [sw|sw| |sw mw ew];
    try discriminate; intros _ _ H; try discriminate H; try reflexivity.
  unfold div, SFdiv, SFdiv_core_binary.
  set (m' := match _ - _ - _ with Z0 => _ | Zpos _ => _ | Zneg _ => _ end).
  assert (Hm' : 0 <= m').
  { subst m'. destruct (_ - _ - _) as [|p|p]; try lia.
    apply Z.shiftl_nonneg. lia. }
  pose proof (div_eucl_quotient_nonneg m' (Zpos mw) Hm' eq_refl) as Hq.
  destruct (Z.div_eucl m' (Zpos mw)) as [q r]. cbn [fst] in Hq.
  apply binary_round_aux_not_nan. exact Hq.
Qed.

End NoNaN.

Import NoNaN.

(** * Further properties of the library *)

Lemma in_unit_fixed (v : number) : in_unit v = true -> clamp01 v = v.
Proof.
  unfold in_unit, clamp01, gtb. intros H. apply andb_prop in H.
  destruct H as [H0 H1].
  assert (Nv : isNaN v = false) by (destruct v; try reflexivity; discriminate H0).
  rewrite (ltb_not_geb v zero), H0 by (assumption || reflexivity).
  rewrite (ltb_not_geb one v), H1 by (assumption || reflexivity).
  reflexivity.
Qed.

(** X1.  clamp01 maps every number that is not NaN into [0,1], leaves the
    numbers of [0,1] as they are, is idempotent, and lets NaN through. *)
Theorem clamp01_spec (v : number) :
  (isNaN v = false -> in_unit (clamp01 v) = true) /\
  (in_unit v = true -> clamp01 v = v) /\
  clamp01 (clamp01 v) = clamp01 v /\
  (isNaN v = true -> clamp01 v = NaN).
Proof.
  split; [apply clamp01_in_unit|]. split; [apply in_unit_fixed|]. split.
  - destruct (isNaN v) eqn:Nv.
    + destruct v; try discriminate Nv. reflexivity.
    + apply in_unit_fixed. now apply clamp01_in_unit.
  - intros Nv. destruct v; try discriminate Nv. reflexivity.
Qed.

Lemma clamp01_spec_witness :
  in_unit (clamp01 (of_Z 7)) = true /\ clamp01 half = half.
Proof.
  split.
  - exact (proj1 (clamp01_spec (of_Z 7)) eq_refl).
  - exact (proj1 (proj2 (clamp01_spec half)) eq_refl).
Defined.

(** X2.  assertFiniteNumbers passes exactly when every value is finite, and
    when it throws, the message names the first entry whose value is not
    finite: every entry before it is finite. *)
Theorem assertFiniteNumbers_first_offender
    (name : string) (values : list (string * number)) :
  (assertFiniteNumbers name values = None <->
   forallb (fun lv => isFinite (snd lv)) values = true) /\
  (forall msg,
     assertFiniteNumbers name values = Some msg ->
     exists before label v after,
       values = (before ++ (label, v) :: after)%list /\
       forallb (fun lv => isFinite (snd lv)) before = true /\
       isFinite v = false /\
       msg = name ++ ": parameter '" ++ label ++ "' must be a finite number.").
Proof.
  induction values as [|[label v] rest [IH1 IH2]].
  - split; [split; reflexivity|]. intros msg H. discriminate H.
  - cbn [assertFiniteNumbers forallb snd]. unfold isFiniteNumber.
    destruct (isFinite v) eqn:Hv; cbn [negb andb].
    + split; [exact IH1|]. intros msg H.
      destruct (IH2 msg H) as (before & l & w & after & -> & Hb & Hw & ->).
      exists ((label, v) :: before), l, w, after.
      cbn [forallb snd app]. rewrite Hv, Hb. auto.
    + split; [split; discriminate|]. intros msg H. injection H as <-.
      exists [], label, v, rest. auto.
Qed.

Lemma assertFiniteNumbers_first_offender_witness :
  exists before label v after,
    [("x", zero); ("mu", NaN); ("sigma", Infinity)]
    = (before ++ (label, v) :: after)%list /\
    forallb (fun lv => isFinite (snd lv)) before = true /\
    isFinite v = false /\
    "gaussian: parameter 'mu' must be a finite number."
    = "gaussian" ++ ": parameter '" ++ label ++ "' must be a finite number.".
Proof.
  exact (proj2 (assertFiniteNumbers_first_offender "gaussian"
                  [("x", zero); ("mu", NaN); ("sigma", Infinity)])
           _ eq_refl).
Defined.

Lemma ramp_quotient_not_nan (n w : number) :
  isNaN n = false -> isFinite w = true ->
  isNaN (n / (w ||| EPSILON)) = false.
Proof.
  intros Nn Fw. unfold or_else. destruct (truthy w) eqn:Tw.
  - apply div_not_nan; [assumption|now apply isFinite_not_NaN|].
    now rewrite Fw, Tw.
  - apply div_not_nan; [assumption|reflexivity|reflexivity].
Qed.

Ltac all_branches :=
  repeat match goal with
  | |- context [if ?c then _ else _] => destruct c
  end.

Ltac ramp_value :=
  eexists; split; [reflexivity|];
  first [ reflexivity
        | apply clamp01_in_unit, ramp_quotient_not_nan;
          [apply sub_not_nan;
           [now apply isFinite_not_NaN | now apply isFinite_not_NaN
           | match goal with H : isFinite ?u = true |- isFinite ?u || _ = true =>
               rewrite H; reflexivity end]
          | assumption] ].

(** X3.  With finite, ordered parameters whose ramp widths b - a and c - b
    do not overflow, triangular returns a number in [0,1] for every finite
    x; likewise trapezoidal with b - a and d - c. *)
Theorem ramps_in_unit_without_overflow (x a b c d : number) :
  isFinite x = true -> isFinite a = true -> isFinite b = true ->
  isFinite c = true -> isFinite d = true ->
  (isFinite (b - a) = true -> isFinite (c - b) = true ->
   (a <=? b) && (b <=? c) = true ->
   exists v, triangular x a b c = Return v /\ in_unit v = true) /\
  (isFinite (b - a) = true -> isFinite (d - c) = true ->
   (a <=? b) && (b <=? c) && (c <=? d) = true ->
   exists v, trapezoidal x a b c d = Return v /\ in_unit v = true).
Proof.
  intros Fx Fa Fb Fc Fd. split; intros W1 W2 Hord.
  - unfold triangular. step_prologue. rewrite Hord. cbn [negb].
    all_branches; ramp_value.
  - unfold trapezoidal. step_prologue. rewrite Hord. cbn [negb].
    all_branches; ramp_value.
Qed.

Lemma ramps_in_unit_without_overflow_witness :
  exists v,
    triangular (of_Z 3) (of_Z 0) (of_Z 5) (of_Z 10) = Return v /\
    in_unit v = true.
Proof.
  exact (proj1 (ramps_in_unit_without_overflow (of_Z 3) (of_Z 0) (of_Z 5)
                  (of_Z 10) (of_Z 10) eq_refl eq_refl eq_refl eq_refl eq_refl)
           eq_refl eq_refl eq_refl).
Defined.

Lemma positive_truthy (v : number) : (zero <? v) = true -> truthy v = true.
Proof. destruct v as [s|s| |s m e]; try discriminate; reflexivity. Qed.

(** X4.  If Math.exp returns NaN only for NaN, gaussian returns a number in
    [0,1] for all finite x and mu and every finite sigma > 0: the argument
    of the exponential is never NaN, even when x - mu overflows. *)
Theorem gaussian_in_unit (Math_exp : number -> number) (x mu sigma : number) :
  (forall v, isNaN v = false -> isNaN (Math_exp v) = false) ->
  isFinite x = true -> isFinite mu = true -> isFinite sigma = true ->
  (sigma >? zero) = true ->
  exists v, gaussian Math_exp x mu sigma = Return v /\ in_unit v = true.
Proof.
  intros Hexp Fx Fmu Fs Hs. unfold gaussian. step_prologue.
  rewrite Hs. cbn [negb]. cbv zeta. eexists. split; [reflexivity|].
  apply clamp01_in_unit, Hexp, scaled_square_not_nan; try reflexivity.
  apply div_not_nan.
  - apply sub_not_nan; [now apply isFinite_not_NaN..|]. now rewrite Fx.
  - now apply isFinite_not_NaN.
  - rewrite Fs, (positive_truthy sigma Hs). reflexivity.
Qed.

Lemma gaussian_in_unit_witness :
  exists v, gaussian (fun _ => one) (of_Z 3) (of_Z 1) (of_Z 2) = Return v /\
            in_unit v = true.
Proof.
  apply gaussian_in_unit; reflexivity.
Defined.

Lemma reciprocal_of_successor_not_nan (p : number) :
  isNaN p = false -> isNaN (one / (one + p)) = false.
Proof.
  intros Np. apply div_not_nan; [reflexivity| |].
  - apply add_not_nan; [reflexivity|assumption|reflexivity].
  - apply orb_true_intro. right. reflexivity.
Qed.

(** X5.  generalizedBell and sigmoid return a number in [0,1] whenever the
    value they get from Math.pow, resp. Math.exp, is not NaN: the division
    1 / (1 + p) adds no NaN of its own. *)
Theorem bell_and_sigmoid_in_unit
    (Math_exp : number -> number) (Math_pow : number -> number -> number)
    (x a b c : number) :
  isFinite x = true -> isFinite a = true -> isFinite b = true ->
  isFinite c = true ->
  ((a === zero) = false -> (b >? zero) = true ->
   isNaN (Math_pow (abs ((x - c) / a)) (two * b)) = false ->
   exists v, generalizedBell Math_pow x a b c = Return v /\ in_unit v = true) /\
  (isNaN (Math_exp ((- a) * (x - c))) = false ->
   exists v, sigmoid Math_exp x a c = Return v /\ in_unit v = true).
Proof.
  intros Fx Fa Fb Fc. split.
  - intros Ha Hb Hp. unfold generalizedBell. step_prologue.
    rewrite Ha, Hb. cbn [negb]. cbv zeta. eexists. split; [reflexivity|].
    now apply clamp01_in_unit, reciprocal_of_successor_not_nan.
  - intros Hp. unfold sigmoid. step_prologue. cbv zeta.
    eexists. split; [reflexivity|].
    now apply clamp01_in_unit, reciprocal_of_successor_not_nan.
Qed.

Lemma bell_and_sigmoid_in_unit_witness :
  exists v, sigmoid (fun _ => one) (of_Z 3) (of_Z 1) (of_Z 2) = Return v /\
            in_unit v = true.
Proof.
  exact (proj2 (bell_and_sigmoid_in_unit (fun _ => one) (fun v _ => v)
                  (of_Z 3) (of_Z 1) (of_Z 1) (of_Z 2)
                  eq_refl eq_refl eq_refl eq_refl) eq_refl).
Defined.

(** X6.  For finite a < b and finite x the two curves saturate exactly:
    sCurve is 0 and zCurve is 1 for every x <= a, sCurve is 1 and zCurve is
    0 for every x >= b. *)
Theorem curves_saturate (x a b : number) :
  isFinite x = true -> isFinite a = true -> isFinite b = true ->
  (a <? b) = true ->
  ((x <=? a) = true ->
   sCurve x a b = Return zero /\ zCurve x a b = Return one) /\
  ((x >=? b) = true ->
   sCurve x a b = Return one /\ zCurve x a b = Return zero).
Proof.
  intros Fx Fa Fb Hab. split; intros H.
  - unfold sCurve, zCurve. step_prologue. rewrite Hab, H. split; reflexivity.
  - unfold geb in H. assert (Hxa : (x <=? a) = false).
    { destruct (x <=? a) eqn:E; [|reflexivity]. num_order. }
    unfold sCurve, zCurve. step_prologue. unfold geb.
    rewrite Hab, H, Hxa. split; reflexivity.
Qed.

Lemma curves_saturate_witness :
  sCurve (of_Z 10) (of_Z 0) (of_Z 10) = Return one /\
  zCurve (of_Z 10) (of_Z 0) (of_Z 10) = Return zero.
Proof.
  exact (proj2 (curves_saturate (of_Z 10) (of_Z 0) (of_Z 10)
                  eq_refl eq_refl eq_refl eq_refl) eq_refl).
Defined.

(** X7.  piCurve and trapezoidal with the same finite, ordered parameters
    agree wherever x is not strictly inside a ramp: on the feet x <= a and
    x >= d and on the plateau b <= x <= c. *)
Theorem piCurve_agrees_with_trapezoidal (x a b c d : number) :
  isFinite x = true -> isFinite a = true -> isFinite b = true ->
  isFinite c = true -> isFinite d = true ->
  (a <=? b) = true -> (b <=? c) = true -> (c <=? d) = true ->
  (x <=? a) || (x >=? d) || ((x >=? b) && (x <=? c)) = true ->
  piCurve x a b c d = trapezoidal x a b c d.
Proof.
  intros Fx Fa Fb Fc Fd Hab Hbc Hcd H.
  unfold piCurve, trapezoidal.
  generalize (sCurve x a b) (zCurve x c d). intros s z. step_prologue.
  rewrite Hab, Hbc, Hcd. cbn [andb negb].
  destruct ((x <=? a) || (x >=? d)); [reflexivity|].
  cbn [orb] in H. rewrite H. reflexivity.
Qed.

Lemma piCurve_agrees_with_trapezoidal_witness :
  piCurve (of_Z 5) (of_Z 0) (of_Z 2) (of_Z 8) (of_Z 10)
  = trapezoidal (of_Z 5) (of_Z 0) (of_Z 2) (of_Z 8) (of_Z 10).
Proof.
  exact (piCurve_agrees_with_trapezoidal (of_Z 5) (of_Z 0) (of_Z 2) (of_Z 8)
           (of_Z 10) eq_refl eq_refl eq_refl eq_refl eq_refl
           eq_refl eq_refl eq_refl eq_refl).
Defined.

Lemma curve_value_not_nan (t : number) :
  isNaN t = false ->
  isNaN (two * t * t) = false /\
  isNaN (one - two * (one - t) * (one - t)) = false /\
  isNaN (one - two * t * t) = false /\
  isNaN (two * (one - t) * (one - t)) = false.
Proof.
  intros Nt.
  assert (Nu : isNaN (one - t) = false)
    by (apply sub_not_nan; [reflexivity|assumption|reflexivity]).
  assert (S1 : isNaN (two * t * t) = false)
    by (apply scaled_square_not_nan; try reflexivity; assumption).
  assert (S2 : isNaN (two * (one - t) * (one - t)) = false)
    by (apply scaled_square_not_nan; try reflexivity; assumption).
  repeat split; try assumption;
    apply sub_not_nan; try reflexivity; assumption.
Qed.

(** X8.  sCurve and zCurve return NaN only through an overflowing width:
    for finite x and finite a < b whose difference b - a is finite, both
    return a number that is not NaN. *)
Theorem curves_not_nan_without_overflow (x a b : number) :
  valid a = true -> valid b = true ->
  isFinite x = true -> isFinite a = true -> isFinite b = true ->
  (a <? b) = true -> isFinite (b - a) = true ->
  (exists v, sCurve x a b = Return v /\ isNaN v = false) /\
  (exists v, zCurve x a b = Return v /\ isNaN v = false).
Proof.
  intros Va Vb Fx Fa Fb Hab Fw.
  assert (Nt : isNaN ((x - a) / (b - a)) = false).
  { apply div_not_nan.
    - apply sub_not_nan; [now apply isFinite_not_NaN..|]. now rewrite Fx.
    - now apply isFinite_not_NaN.
    - rewrite Fw, (sub_truthy a b Va Vb Fa Fb Hab). reflexivity. }
  destruct (curve_value_not_nan _ Nt) as (N1 & N2 & N3 & N4).
  split.
  - unfold sCurve. step_prologue. rewrite Hab. cbn [negb]. cbv zeta.
    all_branches; eexists; (split; [reflexivity|]);
      first [reflexivity | assumption].
  - unfold zCurve. step_prologue. rewrite Hab. cbn [negb]. cbv zeta.
    all_branches; eexists; (split; [reflexivity|]);
      first [reflexivity | assumption].
Qed.

Lemma curves_not_nan_without_overflow_witness :
  exists v, sCurve (of_Z 3) (of_Z 0) (of_Z 10) = Return v /\ isNaN v = false.
Proof.
  exact (proj1 (curves_not_nan_without_overflow (of_Z 3) (of_Z 0) (of_Z 10)
                  eq_refl eq_refl eq_refl eq_refl eq_refl eq_refl eq_refl)).
Defined.

(** X9.  For finite x and c, singleton returns exactly 1 when x === c and
    exactly 0 otherwise, gives the same result with its arguments swapped,
    and is 1 on the diagonal; +0 and -0 count as equal. *)
Theorem singleton_is_crisp (x c : number) :
  isFinite x = true -> isFinite c = true ->
  singleton x c = Return (if x === c then one else zero) /\
  singleton x c = singleton c x /\
  singleton c c = Return one /\
  singleton (S754_zero true) (S754_zero false) = Return one.
Proof.
  intros Fx Fc. unfold singleton. step_prologue.
  split; [reflexivity|]. split; [|split; [|reflexivity]].
  - rewrite (eqb_leb_leb x c), (eqb_leb_leb c x), andb_comm. reflexivity.
  - rewrite eqb_refl; [reflexivity|now apply isFinite_not_NaN].
Qed.

Lemma singleton_is_crisp_witness :
  singleton (of_Z 4) (of_Z 4) = Return one.
Proof.
  exact (proj1 (proj2 (proj2 (singleton_is_crisp (of_Z 4) (of_Z 4)
                                eq_refl eq_refl)))).
Defined.

Module CardFacts.

Import Card.

(** X10.  removeSet drops exactly the sets with the given id and keeps the
    others in their order; adding a preset and removing the new id again
    gives what removing that id from the old list gives, which is the old
    list itself when the id was not in use. *)
Theorem removeSet_after_addSet
    (sets : list FuzzySet) (selected : Preset) (suffix colour : string)
    (min max : number) :
  let new_id := key selected ++ "-" ++ suffix in
  (forall s, In s (removeSet sets new_id) <-> In s sets /\ id s <> new_id) /\
  removeSet (addSet sets selected suffix colour min max) new_id
  = removeSet sets new_id /\
  (Forall (fun s => id s <> new_id) sets ->
   removeSet (addSet sets selected suffix colour min max) new_id = sets).
Proof.
  intros new_id.
  assert (Hin : forall s, In s (removeSet sets new_id)
                          <-> In s sets /\ id s <> new_id).
  { intros s. unfold removeSet. rewrite filter_In, negb_true_iff.
    rewrite <- not_true_iff_false, String.eqb_eq. reflexivity. }
  assert (Hadd : removeSet (addSet sets selected suffix colour min max) new_id
                 = removeSet sets new_id).
  { unfold removeSet, addSet. rewrite filter_app. cbn [filter id].
    fold new_id. rewrite String.eqb_refl. cbn [negb]. apply app_nil_r. }
  split; [exact Hin|]. split; [exact Hadd|].
  intros Hfresh. rewrite Hadd. clear Hin Hadd. unfold removeSet.
  induction Hfresh as [|s rest Hs _ IH]; [reflexivity|].
  cbn [filter]. apply String.eqb_neq in Hs. rewrite Hs. cbn [negb].
  now rewrite IH.
Qed.

Lemma removeSet_after_addSet_witness :
  removeSet (addSet [sample_set] (nth 0 FUNCTION_PRESETS no_preset)
               "q1w2e3" "hsl(200 70% 50%)" zero one)
            "triangular-q1w2e3"
  = [sample_set].
Proof.
  apply (proj2 (proj2 (removeSet_after_addSet [sample_set]
           (nth 0 FUNCTION_PRESETS no_preset)
           "q1w2e3" "hsl(200 70% 50%)" zero one))).
  repeat constructor. cbn. discriminate.
Defined.

(** X11.  updateSet keeps the number of sets; a patch without an id keeps
    the ids in their order; a set whose id differs is left as it is, and an
    id that no set carries changes nothing. *)
Theorem updateSet_preserves (sets : list FuzzySet) (id0 : string) (patch : Patch) :
  List.length (updateSet sets id0 patch) = List.length sets /\
  (patch_id patch = None ->
   map id (updateSet sets id0 patch) = map id sets) /\
  (forall k s, nth_error sets k = Some s -> id s <> id0 ->
               nth_error (updateSet sets id0 patch) k = Some s) /\
  (forall k s, nth_error sets k = Some s -> id s = id0 ->
               nth_error (updateSet sets id0 patch) k = Some (spread s patch)) /\
  (Forall (fun s => id s <> id0) sets -> updateSet sets id0 patch = sets).
Proof.
  unfold updateSet. split; [apply length_map|]. split; [|split; [|split]].
  - intros Hp. rewrite map_map. apply map_ext. intros s.
    destruct (String.eqb (id s) id0); [|reflexivity].
    unfold spread. cbn [id]. now rewrite Hp.
  - intros k s Hk Hne. rewrite nth_error_map, Hk. cbn [option_map].
    apply String.eqb_neq in Hne. now rewrite Hne.
  - intros k s Hk He. rewrite nth_error_map, Hk. cbn [option_map].
    apply String.eqb_eq in He. now rewrite He.
  - intros Hall. induction Hall as [|s rest Hs _ IH]; [reflexivity|].
    cbn [map]. apply String.eqb_neq in Hs. rewrite Hs. now rewrite IH.
Qed.

Lemma updateSet_preserves_witness :
  map id (updateSet [sample_set] "bell-k3x9aa"
            (Build_Patch None (Some "warm") None None None))
  = map id [sample_set].
Proof.
  exact (proj1 (proj2 (updateSet_preserves [sample_set] "bell-k3x9aa"
                         (Build_Patch None (Some "warm") None None None)))
           eq_refl).
Defined.

Lemma assign_length (l : list number) (idx : nat) (v : number) :
  List.length (assign l idx v) = List.length l.
Proof.
  revert idx. induction l as [|h rest IH]; intros [|k]; cbn [assign List.length];
    try reflexivity. now rewrite IH.
Qed.

Lemma assign_same (l : list number) (idx : nat) (v : number) :
  (idx < List.length l)%nat -> nth_error (assign l idx v) idx = Some v.
Proof.
  revert idx. induction l as [|h rest IH]; intros [|k] H; cbn [List.length] in H;
    try lia; cbn [assign nth_error]; [reflexivity|]. apply IH. lia.
Qed.

Lemma assign_other (l : list number) (idx k : nat) (v : number) :
  k <> idx -> nth_error (assign l idx v) k = nth_error l k.
Proof.
  revert idx k. induction l as [|h rest IH]; intros [|i] [|k] H;
    cbn [assign nth_error]; try reflexivity; try congruence.
  apply IH. congruence.
Qed.

Lemma assign_finite (l : list number) (idx : nat) (v : number) :
  isFinite v = true ->
  Forall (fun w => isFinite w = true) l ->
  Forall (fun w => isFinite w = true) (assign l idx v).
Proof.
  intros Hv Hl. revert idx. induction Hl as [|h rest Hh Hrest IH]; intros [|k];
    cbn [assign]; constructor; auto.
Qed.

(** X12.  Editing one parameter field stores a finite number whatever
    parseFloat returned (the number itself when it is finite, 0 otherwise),
    leaves the other parameters and the length of the list alone, and keeps
    the invariant that every set of the list has only finite parameters. *)
Theorem editParameter_keeps_parameters_finite
    (sets : list FuzzySet) (s : FuzzySet) (idx : nat) (num : number) :
  let stored := if isFinite num then num else zero in
  let next := assign (parameters s) idx stored in
  isFinite stored = true /\
  List.length next = List.length (parameters s) /\
  ((idx < List.length (parameters s))%nat -> nth_error next idx = Some stored) /\
  (forall k, k <> idx -> nth_error next k = nth_error (parameters s) k) /\
  (forall t, In t (editParameter sets s idx num) ->
             id t = id s -> parameters t = next) /\
  (finite_parameters s -> Forall finite_parameters sets ->
   Forall finite_parameters (editParameter sets s idx num)).
Proof.
  intros stored next.
  assert (Hst : isFinite stored = true).
  { subst stored. destruct (isFinite num) eqn:E; [exact E|reflexivity]. }
  split; [exact Hst|]. split; [apply assign_length|].
  split; [apply assign_same|]. split; [intros k; apply assign_other|].
  unfold editParameter, updateSet. fold stored. fold next. split.
  - intros t Ht Hid. apply in_map_iff in Ht. destruct Ht as (u & <- & Hu).
    destruct (String.eqb (id u) (id s)) eqn:E; [reflexivity|].
    apply String.eqb_neq in E. cbn in Hid. contradiction.
  - intros Hs Hall. apply Forall_forall. intros t Ht.
    apply in_map_iff in Ht. destruct Ht as (u & <- & Hu).
    destruct (String.eqb (id u) (id s)).
    + unfold finite_parameters, spread. cbn [parameters or_keep patch_parameters].
      now apply assign_finite.
    + rewrite Forall_forall in Hall. now apply Hall.
Qed.

Lemma editParameter_keeps_parameters_finite_witness :
  Forall finite_parameters (editParameter [sample_set] sample_set 1 NaN).
Proof.
  apply (proj2 (proj2 (proj2 (proj2 (proj2
     (editParameter_keeps_parameters_finite [sample_set] sample_set 1 NaN)))))).
  - repeat constructor.
  - repeat constructor.
Defined.

End CardFacts.

Module ChartFacts.

Import Card.

Lemma Math_max_cases (u v : number) :
  isNaN u = false -> isNaN v = false ->
  (u <=? Math_max u v) = true /\ (v <=? Math_max u v) = true /\
  ((Math_max u v === u) = true \/ (Math_max u v === v) = true).
Proof.
  intros Nu Nv. unfold Math_max. rewrite Nu, Nv. cbn [orb].
  destruct (is_neg_zero u && is_pos_zero v) eqn:Z.
  - destruct u as [[|]| | |], v as [[|]| | |]; try discriminate Z.
    repeat split; auto.
  - destruct (u <? v) eqn:L.
    + repeat split; [now apply ltb_leb|now apply leb_refl|].
      right. now apply eqb_refl.
    + repeat split; [now apply leb_refl| |left; now apply eqb_refl].
      rewrite (leb_not_gtb v u), L by assumption. reflexivity.
Qed.

Lemma Math_min_cases (u v : number) :
  isNaN u = false -> isNaN v = false ->
  (Math_min u v <=? u) = true /\ (Math_min u v <=? v) = true /\
  ((Math_min u v === u) = true \/ (Math_min u v === v) = true).
Proof.
  intros Nu Nv. unfold Math_min. rewrite Nu, Nv. cbn [orb].
  destruct (is_pos_zero u && is_neg_zero v) eqn:Z.
  - destruct u as [[|]| | |], v as [[|]| | |]; try discriminate Z.
    repeat split; auto.
  - destruct (v <? u) eqn:L.
    + repeat split; [now apply ltb_leb|now apply leb_refl|].
      right. now apply eqb_refl.
    + repeat split; [now apply leb_refl| |left; now apply eqb_refl].
      rewrite (leb_not_gtb u v), L by assumption. reflexivity.
Qed.

Lemma eqb_not_nan (u v : number) : (u === v) = true -> isNaN u = false.
Proof. destruct u, v; try discriminate; reflexivity. Qed.

Lemma eqb_leb_l (u v w : number) :
  (u === v) = true -> (w <=? v) = true -> (w <=? u) = true.
Proof.
  intros E H. apply eqb_true_leb in E. destruct E as [_ E].
  eapply leb_trans; eassumption.
Qed.

Lemma eqb_trans (u v w : number) :
  (u === v) = true -> (v === w) = true -> (u === w) = true.
Proof.
  intros E1 E2. apply eqb_true_leb in E1, E2.
  destruct E1 as [A1 B1], E2 as [A2 B2].
  rewrite eqb_leb_leb, (leb_trans u v w A1 A2), (leb_trans w v u B2 B1).
  reflexivity.
Qed.

Lemma leb_antisym_eqb (u v : number) :
  (u <=? v) = true -> (v <=? u) = true -> (u === v) = true.
Proof. intros A B. now rewrite eqb_leb_leb, A, B. Qed.

(** X13.  The slider value is kept inside the domain: for numbers min <= max
    and a value v, none of them NaN, the clamped value lies in [min,max] and
    is v itself (up to the sign of zero) when v already lies there; as soon
    as the minimum, the maximum or the value is NaN the result is NaN. *)
Theorem clampToDomain_within (min max v : number) :
  (isNaN min = false -> isNaN max = false -> isNaN v = false ->
   (min <=? max) = true ->
   (min <=? clampToDomain min max v) = true /\
   (clampToDomain min max v <=? max) = true /\
   ((min <=? v) = true -> (v <=? max) = true ->
    (clampToDomain min max v === v) = true)) /\
  (isNaN min || isNaN max || isNaN v = true ->
   clampToDomain min max v = NaN).
Proof.
  split.
  - intros Nmin Nmax Nv Hmm. unfold clampToDomain.
    destruct (Math_max_cases min v Nmin Nv) as (M1 & M2 & M3).
    set (w := Math_max min v) in *.
    assert (Nw : isNaN w = false) by (destruct M3 as [E|E]; exact (eqb_not_nan _ _ E)).
    destruct (Math_min_cases max w Nmax Nw) as (L1 & L2 & L3).
    set (r := Math_min max w) in *.
    split; [|split; [exact L1|]].
    + destruct L3 as [E|E]; eapply eqb_leb_l; eassumption.
    + intros Hlo Hhi.
      assert (Ewv : (w === v) = true).
      { destruct M3 as [E|E]; [|exact E].
        apply leb_antisym_eqb; [|exact M2].
        eapply leb_trans; [|exact Hlo]. apply eqb_true_leb in E. apply E. }
      assert (Hwmax : (w <=? max) = true).
      { apply eqb_true_leb in Ewv. eapply leb_trans; [apply Ewv|exact Hhi]. }
      apply eqb_trans with (v := w); [|exact Ewv].
      destruct L3 as [E|E]; [|exact E].
      apply leb_antisym_eqb; [exact L2|].
      apply eqb_true_leb in E. eapply leb_trans; [exact Hwmax|apply E].
  - intros H. unfold clampToDomain, Math_min, Math_max.
    destruct (isNaN min) eqn:A; cbn [orb].
    + destruct (isNaN max); reflexivity.
    + destruct (isNaN v) eqn:C; cbn [orb].
      * destruct (isNaN max); reflexivity.
      * cbn [orb] in H. rewrite orb_false_r in H. now rewrite H.
Qed.

Lemma clampToDomain_within_witness :
  (clampToDomain (of_Z 0) (of_Z 100) (of_Z 250) <=? of_Z 100) = true /\
  clampToDomain NaN (of_Z 100) (of_Z 50) = NaN.
Proof.
  split.
  - exact (proj1 (proj2 (proj1 (clampToDomain_within (of_Z 0) (of_Z 100)
                                   (of_Z 250)) eq_refl eq_refl eq_refl eq_refl))).
  - exact (proj2 (clampToDomain_within NaN (of_Z 100) (of_Z 50)) eq_refl).
Defined.

(** X14.  Every preset comes with as many default parameters as parameter
    labels, one for each formal parameter of its function after x, so a set
    made by addSet binds every parameter of its function; and the keys of
    the presets are pairwise distinct. *)
Theorem presets_match_their_functions (min max x : number) :
  Forall (fun p =>
            List.length (defaultParams p min max) = List.length (paramLabels p) /\
            S (List.length (defaultParams p min max))
            = List.length (formals (fn p)) /\
            bind_formals (fn p) (x :: defaultParams p min max) <> None)
         FUNCTION_PRESETS /\
  NoDup (map key FUNCTION_PRESETS).
Proof.
  split.
  - repeat constructor; discriminate.
  - cbn [map FUNCTION_PRESETS key].
    repeat (constructor; [cbn [In]; intuition discriminate|]). constructor.
Qed.

(** X15.  The default parameters of the bell preset satisfy the constraint
    of generalizedBell for every domain: a is the larger of 1e-6 and
    (max - min) / 6, hence never 0, and b is 2. *)
Theorem bell_preset_satisfies_constraint (min max x : number) :
  Forall (fun p =>
            fn p = fn_generalizedBell ->
            exists a b c,
              defaultParams p min max = [a; b; c] /\
              constraint (GeneralizedBell x a b c) = true)
         FUNCTION_PRESETS.
Proof.
  repeat constructor; intros H; try discriminate H.
  eexists _, _, _. split; [reflexivity|].
  cbn [constraint]. apply andb_true_intro. split; [|reflexivity].
  apply negb_true_iff.
  destruct (isNaN ((max - min) / six)) eqn:N.
  - unfold Math_max. rewrite N. reflexivity.
  - destruct (Math_max_cases one_millionth _ eq_refl N) as (M1 & _ & _).
    destruct (Math_max one_millionth ((max - min) / six) === zero) eqn:E;
      [|reflexivity].
    apply eqb_true_leb in E. destruct E as [E _].
    pose proof (leb_trans _ _ _ M1 E) as C. discriminate C.
Qed.

Lemma bell_preset_satisfies_constraint_witness :
  exists a b c,
    [Math_max one_millionth ((of_Z 100 - of_Z 0) / six); two;
     (of_Z 0 + of_Z 100) / two] = [a; b; c] /\
    constraint (GeneralizedBell (of_Z 5) a b c) = true.
Proof.
  pose proof (bell_preset_satisfies_constraint (of_Z 0) (of_Z 100) (of_Z 5)) as H.
  rewrite Forall_forall in H.
  apply (H (nth 3 FUNCTION_PRESETS no_preset)).
  - cbn. auto 10.
  - reflexivity.
Defined.

End ChartFacts.

Module CallFacts.

Import Card.

Section WithMath.

Variable Math_exp : number -> number.
Variable Math_pow : number -> number -> number.


(** The prologue on numbers is the prologue on what the parameters hold. *)
Lemma assertFiniteUnknowns_numbers (name : string) (values : list (string * number)) :
  assertFiniteUnknowns name (map (fun lv => (fst lv, a_number (snd lv))) values)
  = assertFiniteNumbers name values.
Proof.
  induction values as [|[l v] rest IH]; [reflexivity|].
  cbn [map assertFiniteUnknowns assertFiniteNumbers fst snd isFiniteUnknown].
  unfold isFiniteNumber. now rewrite IH.
Qed.

(** Running the prologue twice is running it once. *)
Lemma guarded_twice (name : string) (values : list (string * number))
      (body : completion) :
  guarded (assertFiniteUnknowns name
             (map (fun lv => (fst lv, a_number (snd lv))) values))
          (guarded (assertFiniteNumbers name values) body)
  = guarded (assertFiniteNumbers name values) body.
Proof.
  rewrite assertFiniteUnknowns_numbers.
  destruct (assertFiniteNumbers name values); reflexivity.
Qed.

(** With every formal parameter bound, the call is the typed function. *)
Lemma call_bound (f : MembershipFunction) (args : list number) (i : Invocation) :
  bind_formals f args = Some i ->
  call Math_exp Math_pow f args = run Math_exp Math_pow i.
Proof.
  intros H.
  destruct f; destruct args as [|x [|a [|b [|c [|d rest]]]]];
    cbn [bind_formals] in H; try discriminate H;
    injection H as <-;
    cbn [call formal nth_error run];
    unfold triangular_any, trapezoidal_any, gaussian_any, generalizedBell_any,
      sigmoid_any, sCurve_any, zCurve_any, piCurve_any, leftShoulder_any,
      rightShoulder_any, singleton_any, zCurve_any, sCurve_any,
      leftShoulder, rightShoulder;
    cbn [ToNumber];
    match goal with
    | |- guarded (assertFiniteUnknowns ?n ?l) ?b = _ =>
        let h := eval cbv beta delta [triangular trapezoidal gaussian
                   generalizedBell sigmoid sCurve zCurve piCurve singleton] in b in
        lazymatch h with
        | guarded (assertFiniteNumbers n ?vals) ?body =>
            change (guarded (assertFiniteUnknowns n
                      (map (fun lv => (fst lv, a_number (snd lv))) vals))
                      (guarded (assertFiniteNumbers n vals) body)
                    = guarded (assertFiniteNumbers n vals) body)
        end
    end;
    apply guarded_twice.
Qed.

(** X16.  The spread call binds the numbers to the formal parameters by
    position.  With every parameter bound the call is the typed function on
    the bound arguments; arguments beyond the parameters are ignored; and
    when an argument is missing its parameter is undefined and the prologue
    throws a finiteness error under the name of the function that
    validates, for the missing parameter itself when the arguments given
    are all finite. *)
Theorem call_binds_by_position (f : MembershipFunction) (args : list number) :
  (forall i, bind_formals f args = Some i ->
             call Math_exp Math_pow f args = run Math_exp Math_pow i) /\
  (forall extra,
     (List.length (formals f) <= List.length args)%nat ->
     call Math_exp Math_pow f (args ++ extra) = call Math_exp Math_pow f args) /\
  ((List.length args < List.length (formals f))%nat ->
   exists label,
     In label (formals f) /\
     call Math_exp Math_pow f args
     = Throw (validator f ++ ": parameter '" ++ label
              ++ "' must be a finite number.") /\
     (forallb isFinite args = true ->
      label = nth (List.length args) (formals f) "")).
Proof.
  split; [intros i; apply call_bound|]. split.
  - intros extra H.
    destruct f; destruct args as [|x [|a [|b [|c [|d rest]]]]];
      cbn [List.length formals] in H; try lia; reflexivity.
  - intros H.
    destruct f; destruct args as [|x [|a [|b [|c [|d rest]]]]];
      cbn [List.length formals] in H; try lia;
      cbn [call formal nth_error];
      unfold triangular_any, trapezoidal_any, gaussian_any,
        generalizedBell_any, sigmoid_any, leftShoulder_any, rightShoulder_any,
        piCurve_any, singleton_any, sCurve_any, zCurve_any;
      cbn [assertFiniteUnknowns isFiniteUnknown validator forallb formals
           List.length nth];
      repeat match goal with
      | |- context [isFinite ?v] => destruct (isFinite v)
      end;
      cbn [negb guarded andb];
      eexists; (split; [|split; [reflexivity|]]);
      first [ intros E; discriminate E
            | intros _; reflexivity
            | cbn [In]; auto 10 ].
Qed.






End WithMath.

Lemma call_binds_by_position_witness :
  call (fun v => v) (fun v _ => v) fn_triangular
       [of_Z 5; of_Z 0; of_Z 5; of_Z 10; of_Z 99]
  = triangular (of_Z 5) (of_Z 0) (of_Z 5) (of_Z 10) /\
  exists label,
    In label ["x"; "a"; "b"; "c"] /\
    call (fun v => v) (fun v _ => v) fn_triangular [of_Z 5; of_Z 0; of_Z 5]
    = Throw ("triangular" ++ ": parameter '" ++ label
             ++ "' must be a finite number.") /\
    (true = true -> label = "c").
Proof.
  split.
  - exact (proj1 (call_binds_by_position (fun v => v) (fun v _ => v)
                    fn_triangular [of_Z 5; of_Z 0; of_Z 5; of_Z 10; of_Z 99])
             _ eq_refl).
  - exact (proj2 (proj2 (call_binds_by_position (fun v => v) (fun v _ => v)
                           fn_triangular [of_Z 5; of_Z 0; of_Z 5])) (le_n 4)).
Defined.


End CallFacts.
